(** * sonLibList.c: the resizable pointer list [stList] and its iterator

    A shallow embedding of [src/C/impl/sonLibList.c].  The C functions
    become Rocq functions of the same name.  A function that is handed a
    [stList *] takes the struct it points to and, when it changes the
    struct, returns the new one (explicit state passing); where the C code
    tests the pointer against [NULL] ([stList_length], [stList_destruct],
    the list to add of [stList_appendAll]) the argument is an [option].
    An iterator keeps the address of its list and reads the list from a
    store of structs at each call.  A failed [assert] and an invalid
    memory access are outcomes of the [result] type.  The fields
    [length], [maxLength], [list] and [destructElement] of the struct are
    [l_length], [l_maxLength], [l_list] and [l_destructElement] here. *)

From Stdlib Require Import ZArith Lia.
From stdpp Require Import base option list gmap.

Local Open Scope Z_scope.

(** ** Machine integers *)

(** [int32_t] values are integers of the range [INT32_MIN .. INT32_MAX];
    arithmetic on them wraps around modulo 2^32. *)
Definition INT32_MAX : Z := 2147483647.
Definition INT32_MIN : Z := -2147483648.

Definition wrap32 (z : Z) : Z := (z + 2147483648) mod 4294967296 - 2147483648.

Definition add32 (a b : Z) : Z := wrap32 (a + b).
Definition sub32 (a b : Z) : Z := wrap32 (a - b).
Definition mul32 (a b : Z) : Z := wrap32 (a * b).
(** C's [/] truncates towards zero. *)
Definition div32 (a b : Z) : Z := wrap32 (Z.quot a b).

Definition is_int32 (z : Z) : Prop := INT32_MIN <= z <= INT32_MAX.

(** ** Pointers *)

(** A [void *] (an element of the list, or a function pointer) is an
    address; [NULL] is address 0.  The list never looks inside an element. *)
Definition ptr : Type := Z.
Definition NULL : ptr := 0.

(** [#define MINIMUM_ARRAY_EXPAND_SIZE 5] *)
Definition MINIMUM_ARRAY_EXPAND_SIZE : Z := 5.

(** ** Outcomes *)

(** An operation returns normally ([Ok]), stops at a failed [assert] or
    at the [exit] of an allocation wrapper ([Abort]), or performs an
    invalid memory access ([Undefined]). *)
Inductive result (A : Type) : Type :=
| Ok (a : A)
| Abort
| Undefined.
Arguments Ok {A} a.
Arguments Abort {A}.
Arguments Undefined {A}.

Global Instance result_ret : MRet result := λ A a, Ok a.
Global Instance result_bind : MBind result := λ A B f r,
  match r with
  | Ok a => f a
  | Abort => Abort
  | Undefined => Undefined
  end.

(** [assert(b);] *)
Definition c_assert (b : bool) : result unit := if b then Ok () else Abort.

(** Dereferencing a pointer that may be [NULL]. *)
Definition deref {A : Type} (p : option A) : result A :=
  match p with
  | Some a => Ok a
  | None => Undefined
  end.

(** [buf[i]] and [buf[i] = x] on a block of [length buf] slots. *)
Definition array_load (buf : list ptr) (i : Z) : result ptr :=
  if (0 <=? i) && (i <? Z.of_nat (length buf))
  then deref (buf !! Z.to_nat i)
  else Undefined.

Definition array_store (buf : list ptr) (i : Z) (x : ptr) : result (list ptr) :=
  if (0 <=? i) && (i <? Z.of_nat (length buf))
  then Ok (<[Z.to_nat i := x]> buf)
  else Undefined.

(** [for (i = lo; n iterations; i++) s = body(i, s);].  Every loop of the
    file runs [i] from a start value up to [stList_length] of a list whose
    length the body does not change, so the number of iterations is known
    on entry; [i < length <= INT32_MAX], so [i++] never wraps. *)
Fixpoint for_loop {S : Type} (n : nat) (i : Z)
    (body : Z → S → result S) (s : S) : result S :=
  match n with
  | O => Ok s
  | Datatypes.S n' => s' ← body i s; for_loop n' (i + 1) body s'
  end.

(** ** The list *)

(** [struct _stList { void **list; int32_t length; int32_t maxLength;
    destructElement; }].  The block [list->list] is held by
    its contents, one entry per slot; [None] is the [NULL] block. *)
Record stList : Type := mk_stList {
  l_length : Z;
  l_maxLength : Z;
  l_list : option (list ptr);
  l_destructElement : ptr
}.

(** What a call does to the world outside the list. *)
Inductive event : Type :=
| Call (fn : ptr) (arg : ptr)   (* fn(arg), through a function pointer *)
| FreeBuffer                     (* free(list->list) *)
| FreeList.                      (* free(list) *)

Section List.

(** The contents of slot [i] of a block fresh from [malloc]: indeterminate. *)
Variable uninit : nat → ptr.

(** [st_malloc] of [n] slots; it exits when [malloc] fails, as it does for
    a negative [n] (converted to a huge [size_t]).  A block of [n >= 0]
    slots is taken to be available. *)
Definition st_malloc (n : Z) : result (list ptr) :=
  if n <? 0 then Abort else Ok (uninit <$> seq 0 (Z.to_nat n)).

(** [st_calloc] of [n] pointer slots: all zero. *)
Definition st_calloc (n : Z) : result (list ptr) :=
  if n <? 0 then Abort else Ok (replicate (Z.to_nat n) NULL).

(** [memcpy(dst, src, n slots)], returning [dst].  A [NULL] source is
    accepted when nothing is copied. *)
Definition memcpy (dst : list ptr) (src : option (list ptr)) (n : Z)
    : result (list ptr) :=
  match src with
  | Some s =>
      if (0 <=? n) && (n <=? Z.of_nat (length s)) && (n <=? Z.of_nat (length dst))
      then Ok (take (Z.to_nat n) s ++ drop (Z.to_nat n) dst)
      else Undefined
  | None => if n =? 0 then Ok dst else Undefined
  end.

Definition stList_construct3 (length : Z) (destructElement : ptr) : result stList :=
  _ ← c_assert (length >=? 0);
  buf ← st_calloc length;
  Ok {| l_length := length; l_maxLength := length;
        l_list := Some buf; l_destructElement := destructElement |}.

Definition stList_construct : result stList := stList_construct3 0 NULL.

Definition stList_construct2 (size : Z) : result stList := stList_construct3 size NULL.

(** [list] may be [NULL] here. *)
Definition stList_length (l : option stList) : Z :=
  match l with
  | None => 0
  | Some l => l_length l
  end.

Definition stList_get (l : stList) (index : Z) : result ptr :=
  _ ← c_assert (index >=? 0);
  _ ← c_assert (index <? stList_length (Some l));
  buf ← deref (l_list l);
  array_load buf index.

Definition stList_set (l : stList) (index : Z) (item : ptr) : result stList :=
  _ ← c_assert (index >=? 0);
  _ ← c_assert (index <? stList_length (Some l));
  buf ← deref (l_list l);
  buf' ← array_store buf index item;
  Ok {| l_length := l_length l; l_maxLength := l_maxLength l;
        l_list := Some buf'; l_destructElement := l_destructElement l |}.

(** Returns the new block and the new value of [*currentSize].  Sizes are
    counted in slots of [base] bytes, the size of a pointer.  The old block
    is freed; nothing refers to it afterwards. *)
Definition st_list_appendP (current : option (list ptr)) (currentSize newSize : Z)
    : result (list ptr * Z) :=
  _ ← c_assert (currentSize <=? newSize);
  fresh ← st_malloc newSize;
  new ← memcpy fresh current currentSize;
  Ok (new, newSize).

Definition stList_append (l : stList) (item : ptr) : result stList :=
  l1 ← (if stList_length (Some l) >=? l_maxLength l
        then
          '(new, size) ← st_list_appendP (l_list l) (l_maxLength l)
                           (add32 (mul32 (l_maxLength l) 2) MINIMUM_ARRAY_EXPAND_SIZE);
          Ok {| l_length := l_length l; l_maxLength := size;
                l_list := Some new; l_destructElement := l_destructElement l |}
        else Ok l);
  buf ← deref (l_list l1);
  buf' ← array_store buf (l_length l1) item;
  Ok {| l_length := add32 (l_length l1) 1; l_maxLength := l_maxLength l1;
        l_list := Some buf'; l_destructElement := l_destructElement l1 |}.

(** [stListToAdd] may be [NULL] (its length is then 0).  The two lists
    are distinct objects: the call with both arguments the same list stops
    at [assert(stListToAdd != stListToAddTo)]. *)
Definition stList_appendAll (stListToAddTo : stList) (stListToAdd : option stList)
    : result stList :=
  for_loop (Z.to_nat (stList_length stListToAdd)) 0
    (λ i to, toAdd ← deref stListToAdd;
             x ← stList_get toAdd i;
             stList_append to x)
    stListToAddTo.

Definition stList_remove (l : stList) (index : Z) : result (ptr * stList) :=
  _ ← c_assert (index >=? 0);
  _ ← c_assert (index <? stList_length (Some l));
  o ← stList_get l index;
  l' ← for_loop (Z.to_nat (stList_length (Some l) - add32 index 1)) (add32 index 1)
         (λ i l, x ← stList_get l i; stList_set l (sub32 i 1) x)
         l;
  Ok (o, {| l_length := sub32 (l_length l') 1; l_maxLength := l_maxLength l';
            l_list := l_list l'; l_destructElement := l_destructElement l' |}).

Definition stList_peek (l : stList) : result ptr :=
  _ ← c_assert (stList_length (Some l) >? 0);
  stList_get l (sub32 (stList_length (Some l)) 1).

Definition stList_pop (l : stList) : result (ptr * stList) :=
  stList_remove l (sub32 (stList_length (Some l)) 1).

(** The loop of [stList_removeItem], which returns from inside its body. *)
Fixpoint stList_removeItem_loop (n : nat) (i : Z) (l : stList) (item : ptr)
    : result stList :=
  match n with
  | O => Ok l
  | S n' =>
      x ← stList_get l i;
      if x =? item
      then '(_, l') ← stList_remove l i; Ok l'
      else stList_removeItem_loop n' (i + 1) l item
  end.

Definition stList_removeItem (l : stList) (item : ptr) : result stList :=
  stList_removeItem_loop (Z.to_nat (stList_length (Some l))) 0 l item.

Definition stList_removeFirst (l : stList) : result (ptr * stList) :=
  stList_remove l 0.

Fixpoint stList_contains_loop (n : nat) (i : Z) (l : stList) (item : ptr)
    : result Z :=
  match n with
  | O => Ok 0
  | S n' =>
      x ← stList_get l i;
      if x =? item then Ok 1 else stList_contains_loop n' (i + 1) l item
  end.

Definition stList_contains (l : stList) (item : ptr) : result Z :=
  stList_contains_loop (Z.to_nat (stList_length (Some l))) 0 l item.

Definition stList_copy (l : option stList) (destructItem : ptr) : result stList :=
  list2 ← stList_construct3 0 destructItem;
  stList_appendAll list2 l.

Definition stList_reverse (l : stList) : result stList :=
  let j := stList_length (Some l) in
  for_loop (Z.to_nat (div32 j 2)) 0
    (λ i l, o ← stList_get l (sub32 (sub32 j 1) i);
            x ← stList_get l i;
            l ← stList_set l (sub32 (sub32 j 1) i) x;
            stList_set l i o)
    l.

Definition stList_setDestructor (l : stList) (destructElement : ptr) : stList :=
  {| l_length := l_length l; l_maxLength := l_maxLength l;
     l_list := l_list l; l_destructElement := destructElement |}.

(** *** Teardown *)

(** The trace of calls made through [list->destructElement]. *)
Definition destructElements (l : stList) : result (list event) :=
  for_loop (Z.to_nat (stList_length (Some l))) 0
    (λ i tr, x ← stList_get l i;
             if negb (x =? NULL)
             then y ← stList_get l i; Ok (tr ++ [Call (l_destructElement l) y])
             else Ok tr)
    [].

Definition stList_destruct (l : option stList) : result (list event) :=
  match l with
  | Some l =>
      tr ← (if negb (l_destructElement l =? NULL) then destructElements l else Ok []);
      Ok (tr ++ (if l_list l is Some _ then [FreeBuffer] else []) ++ [FreeList])
  | None => Ok []
  end.

(** *** Sorting and shuffling *)

(** [qsort] of the C library, on the contents of the [n] slots it is given. *)
Variable qsort : (ptr → ptr → Z) → list ptr → list ptr.

(** [st_list_sortP] reads the two slots it is handed and calls the
    comparison function kept in the static [st_list_sort_cmpFn]. *)
Definition st_list_sortP (st_list_sort_cmpFn : ptr → ptr → Z) (a b : ptr) : Z :=
  st_list_sort_cmpFn a b.

Definition stList_sort (l : stList) (cmpFn : ptr → ptr → Z) : result stList :=
  let n := stList_length (Some l) in
  match l_list l with
  | Some buf =>
      if (0 <=? n) && (n <=? Z.of_nat (length buf))
      then Ok {| l_length := l_length l; l_maxLength := l_maxLength l;
                 l_list := Some (qsort (st_list_sortP cmpFn) (take (Z.to_nat n) buf)
                                   ++ drop (Z.to_nat n) buf);
                 l_destructElement := l_destructElement l |}
      else Undefined
  | None => if n =? 0 then Ok l else Undefined
  end.

(** [st_randomInt(min, max)] of [sonLibRandom.c], with the state of the
    generator passed along. *)
Variable rng : Type.
Variable st_randomInt : rng → Z → Z → Z * rng.

Definition stList_shuffle (l : stList) (g : rng) : result (stList * rng) :=
  for_loop (Z.to_nat (stList_length (Some l))) 0
    (λ i '(l, g),
       let '(j, g') := st_randomInt g 0 (stList_length (Some l)) in
       o ← stList_get l i;
       x ← stList_get l j;
       l ← stList_set l i x;
       l ← stList_set l j o;
       Ok (l, g'))
    (l, g).

(** *** Filters *)

Definition stList_filter (l : stList) (fn : ptr → bool) : result stList :=
  list2 ← stList_construct;
  for_loop (Z.to_nat (stList_length (Some l))) 0
    (λ i list2, o ← stList_get l i;
                if fn o then stList_append list2 o else Ok list2)
    list2.

(** The sorted set of [sonLibSortedSet.c]; [stSortedSet_search] returns the
    object of the set that compares equal to its argument, or [NULL]. *)
Variable stSortedSet : Type.
Variable stSortedSet_search : stSortedSet → ptr → ptr.

Definition filterP (l : stList) (set : stSortedSet) (include : bool) : result stList :=
  list2 ← stList_construct;
  for_loop (Z.to_nat (stList_length (Some l))) 0
    (λ i list2, o ← stList_get l i;
                if (negb (stSortedSet_search set o =? NULL) && include)
                   || ((stSortedSet_search set o =? NULL) && negb include)
                then stList_append list2 o
                else Ok list2)
    list2.

Definition stList_filterToExclude (l : stList) (set : stSortedSet) : result stList :=
  filterP l set false.

Definition stList_filterToInclude (l : stList) (set : stSortedSet) : result stList :=
  filterP l set true.

(** *** Lists of lists *)

(** The objects a pointer can refer to: the [stList] structs in memory, by
    address.  [NULL] refers to none. *)
Definition load (m : gmap Z stList) (p : ptr) : result (option stList) :=
  if p =? NULL then Ok None
  else match m !! p with
       | Some l => Ok (Some l)
       | None => Undefined
       end.

Definition stList_join (m : gmap Z stList) (listOfLists : stList) : result stList :=
  joinedList ← stList_construct;
  for_loop (Z.to_nat (stList_length (Some listOfLists))) 0
    (λ i joinedList, p ← stList_get listOfLists i;
                     toAdd ← load m p;
                     stList_appendAll joinedList toAdd)
    joinedList.

(** *** Sorted sets made from lists *)

(** The rest of the interface of [sonLibSortedSet.c] that the file uses:
    [stSortedSet_construct3(compareFn, destructElementFn)], where the
    comparison function may be [NULL]; [stSortedSet_insert], which changes
    the set it is given; and [stSortedSet_setDestructor]. *)
Variable stSortedSet_construct3 : option (ptr → ptr → Z) → ptr → stSortedSet.
Variable stSortedSet_insert : stSortedSet → ptr → stSortedSet.
Variable stSortedSet_setDestructor : stSortedSet → ptr → stSortedSet.

Definition stList_getSortedSet (l : stList) (cmpFn : option (ptr → ptr → Z))
    : result stSortedSet :=
  for_loop (Z.to_nat (stList_length (Some l))) 0
    (λ i sortedSet, x ← stList_get l i; Ok (stSortedSet_insert sortedSet x))
    (stSortedSet_construct3 cmpFn NULL).

(** Returns the set, and what the teardown of the list does. *)
Definition stList_convertToSortedSet (l : stList) : result (stSortedSet * list event) :=
  set ← stList_getSortedSet l None;
  let set := stSortedSet_setDestructor set (l_destructElement l) in
  let l := stList_setDestructor l NULL in
  tr ← stList_destruct (Some l);
  Ok (set, tr).

End List.

(** ** The iterator *)

(** [struct _stListIterator { stList *list; int32_t index; }].  The
    iterator points to its list; each call reads the list as it is in
    memory at the time of the call. *)
Record stListIterator : Type := mk_stListIterator {
  it_list : ptr;
  it_index : Z
}.

Definition stList_getIterator (list : ptr) : stListIterator :=
  {| it_list := list; it_index := 0 |}.

Definition stList_getNext (m : gmap Z stList) (iterator : stListIterator)
    : result (ptr * stListIterator) :=
  if it_list iterator =? NULL then Ok (NULL, iterator)
  else
    l ← deref (m !! it_list iterator);
    if it_index iterator >=? stList_length (Some l) then Ok (NULL, iterator)
    else
      x ← stList_get l (it_index iterator);
      Ok (x, {| it_list := it_list iterator;
                it_index := add32 (it_index iterator) 1 |}).

Definition stList_getPrevious (m : gmap Z stList) (iterator : stListIterator)
    : result (ptr * stListIterator) :=
  if (it_list iterator =? NULL) || (it_index iterator =? 0) then Ok (NULL, iterator)
  else
    l ← deref (m !! it_list iterator);
    let iterator' := {| it_list := it_list iterator;
                        it_index := sub32 (it_index iterator) 1 |} in
    x ← stList_get l (it_index iterator');
    Ok (x, iterator').

Definition stList_copyIterator (iterator : stListIterator) : stListIterator :=
  let it := stList_getIterator (it_list iterator) in
  {| it_list := it_list it; it_index := it_index iterator |}.

(** * Specification vocabulary *)

(** ** Sequences of calls *)

(** A run of [stList_append] calls, one per value, in order. *)
Fixpoint stList_appends (uninit : nat → ptr) (l : stList) (vs : list ptr)
    : result stList :=
  match vs with
  | [] => Ok l
  | v :: vs' => l' ← stList_append uninit l v; stList_appends uninit l' vs'
  end.

(** [n] calls of [stList_getNext] in a row, the returned elements dropped. *)
Fixpoint stList_getNext_n (m : gmap Z stList) (n : nat) (iterator : stListIterator)
    : result stListIterator :=
  match n with
  | O => Ok iterator
  | S n' => '(_, iterator') ← stList_getNext m iterator; stList_getNext_n m n' iterator'
  end.

(** [n] calls of [stList_getNext] in a row, the returned elements kept in
    the order of the calls. *)
Fixpoint stList_getNext_list (m : gmap Z stList) (n : nat) (iterator : stListIterator)
    : result (list ptr * stListIterator) :=
  match n with
  | O => Ok ([], iterator)
  | S n' =>
      '(x, iterator') ← stList_getNext m iterator;
      '(xs, iterator'') ← stList_getNext_list m n' iterator';
      Ok (x :: xs, iterator'')
  end.

(** ** Invariants of the data model *)

(** [0 <= length <= capacity], both within the range of their [int32_t] fields. *)
Definition stList_invariant (l : stList) : Prop :=
  0 <= l_length l ∧ l_length l <= l_maxLength l ∧ l_maxLength l <= INT32_MAX.

(** A container: the invariant holds and [list->list] is a block of
    [maxLength] slots. *)
Definition wf (l : stList) : Prop :=
  stList_invariant l ∧
  ∃ buf, l_list l = Some buf ∧ Z.of_nat (length buf) = l_maxLength l.

(** The live elements: slots [0 .. length-1]. *)
Definition elements (l : stList) : list ptr :=
  match l_list l with
  | Some buf => take (Z.to_nat (l_length l)) buf
  | None => []
  end.

(** The unused slots [length .. maxLength-1]. *)
Definition spare (l : stList) : list ptr :=
  match l_list l with
  | Some buf => drop (Z.to_nat (l_length l)) buf
  | None => []
  end.

(** The live elements of the list a pointer refers to; none for [NULL]. *)
Definition pointee_elements (m : gmap Z stList) (p : ptr) : list ptr :=
  if p =? NULL then []
  else match m !! p with
       | Some l => elements l
       | None => []
       end.

(** The capacity after an append. *)
Definition grown (len cap : Z) : Z := if len <? cap then cap else cap * 2 + 5.

(** The capacities a list created empty goes through: 0, 5, 15, 35, ...;
    the [k]-th is [5 * (2^k - 1)]. *)
Definition grown_capacity (k : nat) : Z := 5 * (2 ^ Z.of_nat k - 1).

(** The last of them that an [int32_t] holds is the 28th. *)
Definition MAX_GROWN_CAPACITY : Z := 1342177275.

Definition growing (l : stList) : Prop :=
  ∃ k, (k <= 28)%nat ∧ l_maxLength l = grown_capacity k.

(** What [stList_construct3] returns for a length [n >= 0]. *)
Definition fresh_list (n : Z) (destructElement : ptr) : stList :=
  mk_stList n n (Some (replicate (Z.to_nat n) NULL)) destructElement.

(** The elements [filterP] keeps: those found in the set when [include]
    is set, those not found otherwise. *)
Definition selected {S : Type} (search : S → ptr → ptr) (set : S) (include : bool)
    (o : ptr) : Prop :=
  if include then search set o ≠ NULL else search set o = NULL.

Global Instance selected_dec {S : Type} (search : S → ptr → ptr) set include o :
  Decision (selected search set include o).
Proof. unfold selected. destruct include; apply _. Defined.

(** * Proofs *)

(** ** Arithmetic *)

Lemma wrap32_id z : is_int32 z → wrap32 z = z.
Proof.
  unfold is_int32, INT32_MIN, INT32_MAX, wrap32. intros Hz.
  rewrite Z.mod_small; lia.
Qed.

Lemma add32_id a b : is_int32 (a + b) → add32 a b = a + b.
Proof. apply wrap32_id. Qed.

Lemma sub32_id a b : is_int32 (a - b) → sub32 a b = a - b.
Proof. apply wrap32_id. Qed.

Lemma wrap32_range z : is_int32 (wrap32 z).
Proof.
  unfold is_int32, INT32_MIN, INT32_MAX, wrap32.
  pose proof (Z.mod_pos_bound (z + 2147483648) 4294967296). lia.
Qed.

(** The new size asked for by [stList_append], without wrap-around. *)
Lemma grow_size_id c :
  0 <= c <= 1073741821 → add32 (mul32 c 2) MINIMUM_ARRAY_EXPAND_SIZE = c * 2 + 5.
Proof.
  intros Hc. unfold add32, mul32, MINIMUM_ARRAY_EXPAND_SIZE.
  rewrite (wrap32_id (c * 2)) by (unfold is_int32, INT32_MIN, INT32_MAX; lia).
  apply wrap32_id. unfold is_int32, INT32_MIN, INT32_MAX; lia.
Qed.

Lemma wrap32_over z :
  INT32_MAX < z <= INT32_MAX + 4294967296 → wrap32 z = z - 4294967296.
Proof.
  unfold INT32_MAX, wrap32. intros Hz.
  rewrite <- (Z.mod_unique (z + 2147483648) 4294967296 1 (z + 2147483648 - 4294967296)); lia.
Qed.

(** Beyond that capacity the new size wraps around and falls below the old one. *)
Lemma grow_size_wraps c :
  1073741822 <= c <= INT32_MAX →
  add32 (mul32 c 2) MINIMUM_ARRAY_EXPAND_SIZE = c * 2 + 5 - 4294967296.
Proof.
  unfold INT32_MAX. intros Hc. unfold add32, mul32, MINIMUM_ARRAY_EXPAND_SIZE.
  destruct (Z_le_gt_dec (c * 2) 2147483647) as [Hle|Hgt].
  - rewrite (wrap32_id (c * 2)) by (unfold is_int32, INT32_MIN, INT32_MAX; lia).
    apply wrap32_over. unfold INT32_MAX. lia.
  - rewrite (wrap32_over (c * 2)) by (unfold INT32_MAX; lia).
    rewrite wrap32_id; [lia|]. unfold is_int32, INT32_MIN, INT32_MAX; lia.
Qed.

(** Deciding the tests of [if] and [assert] from the hypotheses. *)
Ltac solve_test :=
  lazymatch goal with
  | |- (_ && _) = true => apply andb_true_intro; split; solve_test
  | |- (_ <=? _) = true => apply Z.leb_le; lia
  | |- (_ <? _) = true => apply Z.ltb_lt; lia
  | |- (_ >=? _) = true => apply Z.geb_le; lia
  | |- (_ >? _) = true => apply Z.gtb_lt; lia
  | |- (_ =? _) = true => apply Z.eqb_eq; lia
  | |- (_ <=? _) = false => apply Z.leb_gt; lia
  | |- (_ <? _) = false => apply Z.ltb_ge; lia
  | |- (_ >=? _) = false => rewrite Z.geb_leb; apply Z.leb_gt; lia
  | |- (_ >? _) = false => rewrite Z.gtb_ltb; apply Z.ltb_ge; lia
  | |- (_ =? _) = false => apply Z.eqb_neq; lia
  end.

Ltac test_true :=
  match goal with
  | |- context [if ?b then _ else _] =>
      let H := fresh in assert (H : b = true) by solve_test; rewrite H; clear H
  end.

Ltac test_false :=
  match goal with
  | |- context [if ?b then _ else _] =>
      let H := fresh in assert (H : b = false) by solve_test; rewrite H; clear H
  end.

Ltac int32 := unfold is_int32, INT32_MIN, INT32_MAX in *; lia.

(** ** Reading and writing a slot *)

Lemma stList_get_at len cap buf d i x :
  0 <= i < len → buf !! Z.to_nat i = Some x →
  stList_get (mk_stList len cap (Some buf) d) i = Ok x.
Proof.
  intros Hi Hx. apply lookup_lt_Some in Hx as Hlt.
  unfold stList_get, c_assert, array_load. simpl.
  do 3 test_true. simpl. by rewrite Hx.
Qed.

Lemma stList_set_at len cap buf d i x :
  0 <= i < len → (Z.to_nat i < length buf)%nat →
  stList_set (mk_stList len cap (Some buf) d) i x
  = Ok (mk_stList len cap (Some (<[Z.to_nat i := x]> buf)) d).
Proof.
  intros Hi Hlt. unfold stList_set, c_assert, array_store. simpl.
  by do 3 test_true.
Qed.

(** A container is its fields; its block is [elements] followed by [spare]. *)
Lemma wf_inv l :
  wf l →
  ∃ buf, l = mk_stList (l_length l) (l_maxLength l) (Some buf) (l_destructElement l)
         ∧ Z.of_nat (length buf) = l_maxLength l
         ∧ 0 <= l_length l <= l_maxLength l ∧ l_maxLength l <= INT32_MAX
         ∧ buf = elements l ++ spare l
         ∧ Z.of_nat (length (elements l)) = l_length l.
Proof.
  intros [(H0 & H1 & H2) (buf & Hb & Hlen)]. exists buf.
  destruct l as [len cap lst d]; simpl in *. subst lst.
  unfold elements, spare; simpl.
  rewrite take_drop, length_take. repeat split; auto; lia.
Qed.

Lemma stList_get_elements l i :
  wf l → 0 <= i < l_length l →
  ∃ x, elements l !! Z.to_nat i = Some x ∧ stList_get l i = Ok x.
Proof.
  intros Hwf Hi. destruct (wf_inv l Hwf) as (buf & Hl & Hlen & Hr & Hc & Hbuf & Hel).
  destruct (lookup_lt_is_Some_2 (elements l) (Z.to_nat i)) as [x Hx]; [lia|].
  exists x. split; [done|]. rewrite Hl. apply stList_get_at; [done|].
  rewrite Hbuf. by apply lookup_app_l_Some.
Qed.

(** ** Appending *)

Section Append.

Variable uninit : nat → ptr.

(** There is room: the element goes into the first spare slot. *)
Lemma stList_append_room len cap buf d v :
  0 <= len < cap → cap <= INT32_MAX → Z.of_nat (length buf) = cap →
  stList_append uninit (mk_stList len cap (Some buf) d) v
  = Ok (mk_stList (len + 1) cap (Some (<[Z.to_nat len := v]> buf)) d).
Proof.
  intros Hlen Hcap Hbuf. unfold stList_append, array_store. simpl.
  test_false. simpl. test_true. simpl.
  by rewrite add32_id by int32.
Qed.

(** The list is full: a block of [cap * 2 + 5] slots takes over the
    [cap] elements, and the element goes into slot [cap]. *)
Lemma stList_append_grow cap buf d v :
  0 <= cap <= 1073741821 → Z.of_nat (length buf) = cap →
  stList_append uninit (mk_stList cap cap (Some buf) d) v
  = Ok (mk_stList (cap + 1) (cap * 2 + 5)
          (Some (buf ++ v :: drop (S (Z.to_nat cap)) (uninit <$> seq 0 (Z.to_nat (cap * 2 + 5)))))
          d).
Proof.
  intros Hcap Hbuf. unfold stList_append. simpl.
  test_true. rewrite grow_size_id by done.
  unfold st_list_appendP, c_assert, st_malloc, memcpy.
  test_true. simpl. test_false. simpl.
  set (fresh := uninit <$> seq 0 (Z.to_nat (cap * 2 + 5))).
  assert (Hfresh : length fresh = Z.to_nat (cap * 2 + 5))
    by (unfold fresh; by rewrite length_fmap, length_seq).
  test_true. simpl. unfold array_store.
  rewrite take_ge by lia.
  destruct (lookup_lt_is_Some_2 fresh (Z.to_nat cap)) as [y Hy]; [lia|].
  rewrite (drop_S fresh y (Z.to_nat cap) Hy).
  rewrite length_app. simpl. rewrite length_drop.
  test_true. simpl. rewrite add32_id by int32.
  do 3 f_equal.
  rewrite insert_app_r_alt by lia.
  by replace (Z.to_nat cap - length buf)%nat with 0%nat by lia.
Qed.

(** The list is full and the doubled capacity does not fit in an
    [int32_t]: the [assert] of [st_list_appendP] fails. *)
Lemma stList_append_overflow len cap lst d v :
  1073741822 <= cap <= INT32_MAX → cap <= len →
  stList_append uninit (mk_stList len cap lst d) v = Abort.
Proof.
  intros Hcap Hlen. unfold stList_append. simpl.
  test_true. rewrite grow_size_wraps by done.
  unfold st_list_appendP, c_assert. unfold INT32_MAX in Hcap.
  by test_false.
Qed.

Lemma stList_append_spec l v :
  wf l → l_length l < l_maxLength l ∨ l_maxLength l <= 1073741821 →
  ∃ l', stList_append uninit l v = Ok l'
        ∧ wf l'
        ∧ elements l' = elements l ++ [v]
        ∧ l_length l' = l_length l + 1
        ∧ l_maxLength l' = grown (l_length l) (l_maxLength l)
        ∧ l_destructElement l' = l_destructElement l.
Proof.
  intros [(H0 & H1 & H2) (buf & Hb & Hlen)] Hroom.
  destruct l as [len cap lst d]; simpl in *. subst lst.
  unfold grown, elements, wf, stList_invariant. simpl.
  destruct (Z.ltb_spec len cap) as [Hlt|Hge].
  - eexists. rewrite stList_append_room by lia.
    split; [done|]. simpl. repeat split; try lia.
    + eexists. split; [done|]. rewrite length_insert. lia.
    + replace (Z.to_nat (len + 1)) with (S (Z.to_nat len)) by lia.
      rewrite take_S_r with (x := v).
      * by rewrite take_insert_ge by lia.
      * apply list_lookup_insert_eq. lia.
  - assert (len = cap) as -> by lia.
    eexists. rewrite stList_append_grow by lia.
    split; [done|]. simpl. unfold INT32_MAX. repeat split; try lia.
    + eexists. split; [done|].
      rewrite length_app. simpl. rewrite length_drop, length_fmap, length_seq. lia.
    + rewrite (take_ge buf) by lia. rewrite take_app_ge by lia.
      replace (Z.to_nat (cap + 1) - length buf)%nat with 1%nat by lia.
      simpl. by rewrite take_0.
Qed.

End Append.

(** ** Runs of appends *)

Section Appends.

Variable uninit : nat → ptr.

Lemma stList_appends_app l vs ws :
  stList_appends uninit l (vs ++ ws)
  = stList_appends uninit l vs ≫= λ l', stList_appends uninit l' ws.
Proof.
  revert l. induction vs as [|v vs IH]; intros l; simpl; [done|].
  destruct (stList_append uninit l v); simpl; [apply IH|done|done].
Qed.

Lemma grown_capacity_mono j k : (j <= k)%nat → grown_capacity j <= grown_capacity k.
Proof.
  intros Hjk. unfold grown_capacity.
  assert (2 ^ Z.of_nat j <= 2 ^ Z.of_nat k) by (apply Z.pow_le_mono_r; lia). lia.
Qed.

Lemma grown_capacity_S k : grown_capacity (S k) = grown_capacity k * 2 + 5.
Proof.
  unfold grown_capacity. rewrite Nat2Z.inj_succ, Z.pow_succ_r by lia. lia.
Qed.

Lemma grown_capacity_28 : grown_capacity 28 = MAX_GROWN_CAPACITY.
Proof. reflexivity. Qed.

Lemma grown_capacity_27 : grown_capacity 27 = 671088635.
Proof. reflexivity. Qed.

Lemma grown_capacity_nonneg k : 0 <= grown_capacity k.
Proof. rewrite <- (grown_capacity_mono 0 k) by lia. done. Qed.

(** A growing list that is full and below the last capacity can double. *)
Lemma growing_room l :
  growing l → l_length l <= l_maxLength l → l_length l < MAX_GROWN_CAPACITY →
  l_length l < l_maxLength l ∨ l_maxLength l <= 1073741821.
Proof.
  intros (k & Hk & Hcap) Hle Hlt.
  destruct (Z_lt_ge_dec (l_length l) (l_maxLength l)) as [|Hge]; [by left|right].
  assert (k ≠ 28%nat).
  { intros ->. rewrite Hcap, grown_capacity_28 in Hge. lia. }
  rewrite Hcap. rewrite (grown_capacity_mono k 27) by lia.
  rewrite grown_capacity_27. lia.
Qed.

Lemma growing_grown l c :
  growing l → l_length l <= l_maxLength l → l_length l < MAX_GROWN_CAPACITY →
  c = grown (l_length l) (l_maxLength l) →
  ∃ k, (k <= 28)%nat ∧ c = grown_capacity k.
Proof.
  intros (k & Hk & Hcap) Hle Hlt ->. unfold grown.
  destruct (Z.ltb_spec (l_length l) (l_maxLength l)) as [|Hge]; [by exists k|].
  assert (k ≠ 28%nat).
  { intros ->. rewrite Hcap, grown_capacity_28 in Hge. lia. }
  exists (S k). split; [lia|]. by rewrite grown_capacity_S, Hcap.
Qed.

Lemma growing_bound l : growing l → l_maxLength l <= MAX_GROWN_CAPACITY.
Proof.
  intros (k & Hk & ->). rewrite <- grown_capacity_28. by apply grown_capacity_mono.
Qed.

Lemma stList_appends_spec vs : ∀ l,
  wf l → growing l → l_length l + Z.of_nat (length vs) <= MAX_GROWN_CAPACITY →
  ∃ l', stList_appends uninit l vs = Ok l'
        ∧ wf l' ∧ growing l'
        ∧ elements l' = elements l ++ vs
        ∧ l_length l' = l_length l + Z.of_nat (length vs)
        ∧ l_destructElement l' = l_destructElement l.
Proof.
  induction vs as [|v vs IH]; intros l Hwf Hgrow Hlen; simpl in *.
  - exists l. rewrite app_nil_r. split_and!; auto. lia.
  - assert (Hle : l_length l <= l_maxLength l) by (destruct Hwf as [(? & ? & ?) _]; done).
    destruct (stList_append_spec uninit l v Hwf) as (l1 & -> & Hwf1 & Hel1 & Hlen1 & Hcap1 & Hd1).
    { apply growing_room; [done|done|lia]. }
    simpl.
    destruct (IH l1 Hwf1) as (l' & Hrun & Hwf' & Hgrow' & Hel' & Hlen' & Hd').
    { unfold growing. rewrite Hcap1. eapply growing_grown; [done|done|lia|done]. }
    { lia. }
    exists l'. rewrite Hel', Hel1, <- app_assoc. simpl.
    split_and!; auto; [lia|congruence].
Qed.

(** The empty list of [stList_construct]. *)
Lemma stList_construct_eq : stList_construct = Ok (mk_stList 0 0 (Some []) NULL).
Proof. reflexivity. Qed.

Lemma stList_construct_wf d : wf (mk_stList 0 0 (Some []) d).
Proof.
  split; [unfold stList_invariant, INT32_MAX; simpl; lia|].
  exists []. done.
Qed.

Lemma stList_construct_growing d : growing (mk_stList 0 0 (Some []) d).
Proof. exists 0%nat. split; [lia|done]. Qed.

(** Past the last capacity the next append stops at the [assert]. *)
Lemma stList_appends_overflow vs l :
  wf l → growing l → MAX_GROWN_CAPACITY < l_length l + Z.of_nat (length vs) →
  stList_appends uninit l vs = Abort.
Proof.
  intros Hwf Hgrow Hlen.
  assert (Hle : l_length l <= MAX_GROWN_CAPACITY).
  { pose proof (growing_bound l Hgrow). destruct Hwf as [(? & ? & ?) _]. lia. }
  set (n := Z.to_nat (MAX_GROWN_CAPACITY - l_length l)).
  rewrite <- (take_drop n vs), stList_appends_app.
  destruct (stList_appends_spec (take n vs) l Hwf Hgrow)
    as (l' & -> & Hwf' & Hgrow' & _ & Hlen' & _).
  { rewrite length_take. lia. }
  simpl. rewrite length_take in Hlen'.
  destruct (drop n vs) as [|v ws] eqn:Hdrop.
  { apply (f_equal length) in Hdrop. rewrite length_drop in Hdrop. simpl in Hdrop. lia. }
  simpl. pose proof (growing_bound l' Hgrow').
  destruct Hwf' as [(? & ? & ?) _].
  destruct l' as [len cap lst d]; simpl in *.
  rewrite stList_append_overflow; [done| |lia].
  unfold MAX_GROWN_CAPACITY in *. lia.
Qed.

End Appends.

(** ** Construction *)

Lemma stList_construct3_eq n d :
  0 <= n → stList_construct3 n d = Ok (fresh_list n d).
Proof.
  intros Hn. unfold stList_construct3, c_assert, st_calloc.
  test_true. simpl. by test_false.
Qed.

Lemma fresh_list_wf n d : 0 <= n <= INT32_MAX → wf (fresh_list n d).
Proof.
  intros Hn. split; [unfold stList_invariant, fresh_list; simpl; lia|].
  eexists. split; [reflexivity|]. rewrite length_replicate. unfold fresh_list. simpl. lia.
Qed.

Lemma fresh_list_elements n d : elements (fresh_list n d) = replicate (Z.to_nat n) NULL.
Proof. unfold elements, fresh_list. simpl. by rewrite take_ge by (rewrite length_replicate; lia). Qed.

(** ** Claims on [stList_append] *)

(** C2, as amended.  For every container whose capacity is at most
    1073741821 or which has a spare slot, [stList_append] succeeds.  When
    [length == capacity] the new block has exactly
    [max(capacity*2 + 5, capacity + 1)] slots; when [length < capacity] the
    block is the old one ([buf]) with one slot written, and the capacity
    is unchanged.  In both cases the [length] existing elements keep their
    positions, the value is at index [length], and the length grows by 1. *)
Theorem stList_append_capacity uninit l v :
  wf l → l_length l < l_maxLength l ∨ l_maxLength l <= 1073741821 →
  ∃ l' buf',
    stList_append uninit l v = Ok l'
    ∧ l_list l' = Some buf'
    ∧ l_maxLength l' = (if l_length l =? l_maxLength l
                        then Z.max (l_maxLength l * 2 + 5) (l_maxLength l + 1)
                        else l_maxLength l)
    ∧ Z.of_nat (length buf') = l_maxLength l'
    ∧ take (Z.to_nat (l_length l)) buf' = elements l
    ∧ buf' !! Z.to_nat (l_length l) = Some v
    ∧ l_length l' = l_length l + 1
    ∧ (l_length l < l_maxLength l →
       ∀ buf, l_list l = Some buf → buf' = <[Z.to_nat (l_length l) := v]> buf).
Proof.
  intros [(H0 & H1 & H2) (buf & Hb & Hlen)] Hroom.
  destruct l as [len cap lst d]; simpl in *. subst lst.
  unfold elements. simpl.
  destruct (Z.eqb_spec len cap) as [->|Hne].
  - do 2 eexists. rewrite stList_append_grow by lia.
    split; [reflexivity|]. split; [reflexivity|]. simpl. split_and!.
    + lia.
    + rewrite length_app. simpl. rewrite length_drop, length_fmap, length_seq. lia.
    + by rewrite take_app_le by lia.
    + rewrite lookup_app_r by lia.
      by replace (Z.to_nat cap - length buf)%nat with 0%nat by lia.
    + done.
    + lia.
  - do 2 eexists. rewrite stList_append_room by lia.
    split; [reflexivity|]. split; [reflexivity|]. simpl. split_and!.
    + done.
    + rewrite length_insert. lia.
    + by rewrite take_insert_ge by lia.
    + apply list_lookup_insert_eq. lia.
    + done.
    + by intros _ buf0 [= <-].
Qed.

Lemma stList_append_capacity_witness :
  wf (mk_stList 2 2 (Some [11; 12]) NULL)
  ∧ ∃ l' buf',
      stList_append (λ _, NULL) (mk_stList 2 2 (Some [11; 12]) NULL) 13 = Ok l'
      ∧ l_list l' = Some buf'
      ∧ l_maxLength l' = 9
      ∧ Z.of_nat (length buf') = l_maxLength l'
      ∧ take 2 buf' = [11; 12]
      ∧ buf' !! 2%nat = Some 13
      ∧ l_length l' = 3
      ∧ (2 < 2 → ∀ buf, Some [11; 12] = Some buf → buf' = <[2%nat := 13]> buf).
Proof.
  assert (Hwf : wf (mk_stList 2 2 (Some [11; 12]) NULL)).
  { split; [unfold stList_invariant, INT32_MAX; simpl; lia|]. by exists [11; 12]. }
  split; [exact Hwf|].
  apply (stList_append_capacity (λ _, NULL) (mk_stList 2 2 (Some [11; 12]) NULL) 13 Hwf).
  right. simpl. lia.
Defined.

(** C2 fails as stated: on the full list of 1073741822 slots that
    [stList_construct2] returns, the new size [capacity*2 + 5] wraps around
    and [stList_append] stops at the [assert] of [st_list_appendP]. *)
Lemma stList_append_capacity_counterexample :
  stList_construct2 1073741822 = Ok (fresh_list 1073741822 NULL)
  ∧ wf (fresh_list 1073741822 NULL)
  ∧ l_length (fresh_list 1073741822 NULL) = l_maxLength (fresh_list 1073741822 NULL)
  ∧ stList_append (λ _, NULL) (fresh_list 1073741822 NULL) 1 = Abort
  ∧ ¬ ∃ l', stList_append (λ _, NULL) (fresh_list 1073741822 NULL) 1 = Ok l'
            ∧ l_maxLength l' = Z.max (1073741822 * 2 + 5) (1073741822 + 1).
Proof.
  assert (Habort : stList_append (λ _, NULL) (fresh_list 1073741822 NULL) 1 = Abort).
  { unfold fresh_list. apply stList_append_overflow; unfold INT32_MAX; lia. }
  split_and!.
  - unfold stList_construct2. apply stList_construct3_eq. lia.
  - apply fresh_list_wf. unfold INT32_MAX. lia.
  - reflexivity.
  - exact Habort.
  - intros (l' & Hrun & _). rewrite Habort in Hrun. discriminate Hrun.
Qed.

(** C3, as amended.  For every sequence of N <= 1342177275 values, the N
    appends starting from [stList_construct()] succeed; afterwards
    [stList_length] returns N and [stList_get(i)] returns the i-th appended
    value, for every i in [0, N). *)
Theorem stList_appends_length_get uninit vs :
  Z.of_nat (length vs) <= MAX_GROWN_CAPACITY →
  ∃ l, (stList_construct ≫= λ l0, stList_appends uninit l0 vs) = Ok l
       ∧ stList_length (Some l) = Z.of_nat (length vs)
       ∧ ∀ i x, vs !! i = Some x → stList_get l (Z.of_nat i) = Ok x.
Proof.
  intros Hlen. rewrite stList_construct_eq. simpl.
  destruct (stList_appends_spec uninit vs (mk_stList 0 0 (Some []) NULL))
    as (l & Hrun & Hwf & _ & Hel & Hl & _).
  { apply stList_construct_wf. }
  { apply stList_construct_growing. }
  { simpl. lia. }
  exists l. simpl in *. split_and!; [done|lia|].
  intros i x Hx. apply lookup_lt_Some in Hx as Hi.
  destruct (stList_get_elements l (Z.of_nat i) Hwf) as (y & Hy & ->); [lia|].
  rewrite Hel, Nat2Z.id in Hy. unfold elements in Hy. simpl in Hy. congruence.
Qed.

Lemma stList_appends_length_get_witness :
  Z.of_nat (length [10; 20; 30]) <= MAX_GROWN_CAPACITY
  ∧ ∃ l, (stList_construct ≫= λ l0, stList_appends (λ _, NULL) l0 [10; 20; 30]) = Ok l
         ∧ stList_length (Some l) = Z.of_nat (length [10; 20; 30])
         ∧ ∀ i x, [10; 20; 30] !! i = Some x → stList_get l (Z.of_nat i) = Ok x.
Proof.
  assert (H : Z.of_nat (length [10; 20; 30]) <= MAX_GROWN_CAPACITY)
    by (unfold MAX_GROWN_CAPACITY; simpl; lia).
  split; [exact H|]. exact (stList_appends_length_get (λ _, NULL) [10; 20; 30] H).
Defined.

(** C3 fails as stated: of 1342177276 appends starting from
    [stList_construct()], the last one finds the list full at capacity
    1342177275 and stops at the [assert] of [st_list_appendP]; no list of
    length 1342177276 results. *)
Lemma stList_appends_length_get_counterexample :
  (stList_construct
     ≫= λ l0, stList_appends (λ _, NULL) l0 (replicate (Z.to_nat 1342177276) 1))
  = Abort
  ∧ ¬ ∃ l, (stList_construct
              ≫= λ l0, stList_appends (λ _, NULL) l0 (replicate (Z.to_nat 1342177276) 1))
           = Ok l
           ∧ stList_length (Some l) = 1342177276.
Proof.
  assert (Habort : (stList_construct
                      ≫= λ l0, stList_appends (λ _, NULL) l0
                                 (replicate (Z.to_nat 1342177276) 1)) = Abort).
  { rewrite stList_construct_eq.
    change (stList_appends (λ _, NULL) (mk_stList 0 0 (Some []) NULL)
              (replicate (Z.to_nat 1342177276) 1) = Abort).
    apply stList_appends_overflow.
    - apply stList_construct_wf.
    - apply stList_construct_growing.
    - rewrite length_replicate. unfold MAX_GROWN_CAPACITY. simpl l_length. lia. }
  split; [exact Habort|].
  intros (l & Hrun & _). rewrite Habort in Hrun. discriminate Hrun.
Qed.

(** ** Removal *)

Lemma elements_mk len cap buf d :
  elements (mk_stList len cap (Some buf) d) = take (Z.to_nat len) buf.
Proof. reflexivity. Qed.

Lemma stList_get_lookup l i x :
  wf l → 0 <= i < l_length l → elements l !! Z.to_nat i = Some x →
  stList_get l i = Ok x.
Proof.
  intros Hwf Hi Hx. destruct (stList_get_elements l i Hwf Hi) as (y & Hy & ->). congruence.
Qed.

Lemma last_cons_default {A} (r a : A) (mid : list A) :
  List.last (r :: mid) a = List.last mid r.
Proof.
  revert r a. induction mid as [|m mid IH]; intros r a; [done|].
  change (List.last (m :: mid) a = List.last (m :: mid) r).
  by rewrite !IH.
Qed.

(** The loop of [stList_remove], started at the slot after [a]: every
    element of [mid] moves one slot down; the last slot keeps its value. *)
Lemma stList_remove_loop mid : ∀ pre a tail len cap d,
  len = Z.of_nat (length pre) + 1 + Z.of_nat (length mid) → len <= INT32_MAX →
  for_loop (length mid) (Z.of_nat (length pre) + 1)
    (λ i l, x ← stList_get l i; stList_set l (sub32 i 1) x)
    (mk_stList len cap (Some (pre ++ a :: mid ++ tail)) d)
  = Ok (mk_stList len cap (Some (pre ++ mid ++ List.last mid a :: tail)) d).
Proof.
  induction mid as [|r mid IH]; intros pre a tail len cap d Hlen Hmax; [done|].
  simpl length in *. cbn [for_loop].
  rewrite (stList_get_at _ _ _ _ _ r); [|lia|].
  2:{ rewrite lookup_app_r by lia.
      by replace (Z.to_nat (Z.of_nat (length pre) + 1) - length pre)%nat with 1%nat by lia. }
  cbn [mbind result_bind].
  rewrite sub32_id by int32.
  rewrite stList_set_at; [|lia|rewrite length_app; simpl; lia].
  cbn [mbind result_bind].
  replace (Z.to_nat (Z.of_nat (length pre) + 1 - 1)) with (length pre + 0)%nat by lia.
  rewrite insert_app_r. cbn [list_insert insert].
  specialize (IH (pre ++ [r]) r tail len cap d).
  rewrite length_app in IH. simpl length in IH.
  replace (Z.of_nat (length pre + 1) + 1) with (Z.of_nat (length pre) + 1 + 1) in IH by lia.
  rewrite <- !app_assoc in IH. simpl in IH.
  rewrite <- !app_comm_cons.
  rewrite IH by lia. by rewrite last_cons_default.
Qed.

Lemma stList_remove_spec l i :
  wf l → 0 <= i < l_length l →
  ∃ x l', stList_remove l i = Ok (x, l')
          ∧ elements l !! Z.to_nat i = Some x
          ∧ wf l'
          ∧ elements l' = delete (Z.to_nat i) (elements l)
          ∧ l_length l' = l_length l - 1
          ∧ l_maxLength l' = l_maxLength l
          ∧ l_destructElement l' = l_destructElement l.
Proof.
  intros Hwf Hi.
  destruct (stList_get_elements l i Hwf Hi) as (x & Hx & Hget).
  destruct (wf_inv l Hwf) as (buf & Hl & Hlen & Hr & Hc & Hbuf & Hel).
  pose proof (take_drop_middle _ _ _ Hx) as Hsplit.
  set (pre := take (Z.to_nat i) (elements l)) in *.
  set (mid := drop (S (Z.to_nat i)) (elements l)) in *.
  assert (Hpre : length pre = Z.to_nat i) by (unfold pre; rewrite length_take; lia).
  assert (Hmid : Z.of_nat (length mid) = l_length l - i - 1)
    by (unfold mid; rewrite length_drop; lia).
  exists x, (mk_stList (l_length l - 1) (l_maxLength l)
               (Some (pre ++ mid ++ List.last mid x :: spare l)) (l_destructElement l)).
  split.
  - unfold stList_remove, c_assert. cbn [stList_length].
    do 2 test_true. cbn [mbind result_bind]. rewrite Hget. cbn [mbind result_bind].
    rewrite add32_id by int32.
    replace (Z.to_nat (l_length l - (i + 1))) with (length mid) by lia.
    replace (i + 1) with (Z.of_nat (length pre) + 1) by lia.
    rewrite Hl at 1. rewrite Hbuf, <- Hsplit, <- app_assoc. simpl.
    rewrite stList_remove_loop by lia. simpl.
    by rewrite sub32_id by int32.
  - assert (Hsp : Z.of_nat (length (spare l)) = l_maxLength l - l_length l).
    { apply (f_equal length) in Hbuf. rewrite length_app in Hbuf. lia. }
    split; [done|]. rewrite elements_mk. unfold wf, stList_invariant. simpl.
    split_and!; try done; try lia.
    + eexists. split; [done|]. rewrite !length_app. simpl. lia.
    + rewrite app_assoc. rewrite take_app_le by (rewrite length_app; lia).
      rewrite take_ge by (rewrite length_app; lia).
      rewrite <- Hsplit, <- Hpre. by rewrite delete_middle.
Qed.

(** C4.  For every container and index [0 <= i < length],
    [stList_remove(i)] returns the element at index [i], leaves the
    elements below [i] in place, moves every element above [i] one position
    down (so the others keep their order), and decreases the length by 1;
    [stList_removeFirst()] is [stList_remove(0)]. *)
Theorem stList_remove_shifts l i :
  wf l → 0 <= i < l_length l →
  ∃ x l', stList_remove l i = Ok (x, l')
          ∧ stList_get l i = Ok x
          ∧ stList_length (Some l') = stList_length (Some l) - 1
          ∧ (∀ j, 0 <= j < i → stList_get l' j = stList_get l j)
          ∧ (∀ j, i < j < l_length l → stList_get l' (j - 1) = stList_get l j)
          ∧ elements l' = delete (Z.to_nat i) (elements l)
          ∧ stList_removeFirst l = stList_remove l 0.
Proof.
  intros Hwf Hi.
  destruct (stList_remove_spec l i Hwf Hi) as (x & l' & Hrm & Hx & Hwf' & Hel & Hlen & _).
  exists x, l'. split_and!; try done.
  - by apply stList_get_lookup.
  - intros j Hj.
    destruct (stList_get_elements l j Hwf) as (y & Hy & ->); [lia|].
    apply stList_get_lookup; [done|lia|].
    rewrite Hel, list_lookup_delete_lt by lia. done.
  - intros j Hj.
    destruct (stList_get_elements l j Hwf) as (y & Hy & ->); [lia|].
    apply stList_get_lookup; [done|lia|].
    rewrite Hel, list_lookup_delete_ge by lia.
    by replace (S (Z.to_nat (j - 1))) with (Z.to_nat j) by lia.
Qed.

Lemma stList_remove_shifts_witness :
  wf (mk_stList 3 5 (Some [10; 20; 30; 0; 0]) NULL)
  ∧ 0 <= 0 < 3
  ∧ ∃ x l', stList_remove (mk_stList 3 5 (Some [10; 20; 30; 0; 0]) NULL) 0 = Ok (x, l')
            ∧ stList_get (mk_stList 3 5 (Some [10; 20; 30; 0; 0]) NULL) 0 = Ok x
            ∧ stList_length (Some l') = 3 - 1
            ∧ (∀ j, 0 <= j < 0 →
               stList_get l' j = stList_get (mk_stList 3 5 (Some [10; 20; 30; 0; 0]) NULL) j)
            ∧ (∀ j, 0 < j < 3 →
               stList_get l' (j - 1) = stList_get (mk_stList 3 5 (Some [10; 20; 30; 0; 0]) NULL) j)
            ∧ elements l' = [20; 30]
            ∧ stList_removeFirst (mk_stList 3 5 (Some [10; 20; 30; 0; 0]) NULL)
              = stList_remove (mk_stList 3 5 (Some [10; 20; 30; 0; 0]) NULL) 0.
Proof.
  assert (Hwf : wf (mk_stList 3 5 (Some [10; 20; 30; 0; 0]) NULL)).
  { split; [unfold stList_invariant, INT32_MAX; simpl; lia|]. by eexists. }
  assert (Hi : 0 <= 0 < 3) by lia.
  split; [exact Hwf|]. split; [exact Hi|].
  exact (stList_remove_shifts (mk_stList 3 5 (Some [10; 20; 30; 0; 0]) NULL) 0 Hwf Hi).
Defined.

(** C7.  [stList_pop()] is [stList_remove(length - 1)].  On a non-empty
    container it returns the last element and decreases the length by 1,
    so it does not reach a failing [assert]; on an empty container it
    stops at the [assert] of [stList_remove] and returns nothing. *)
Theorem stList_pop_last l :
  wf l →
  stList_pop l = stList_remove l (stList_length (Some l) - 1)
  ∧ (stList_length (Some l) > 0 →
     ∃ x l', stList_pop l = Ok (x, l')
             ∧ last (elements l) = Some x
             ∧ stList_length (Some l') = stList_length (Some l) - 1
             ∧ elements l' = take (Z.to_nat (stList_length (Some l) - 1)) (elements l)
             ∧ stList_pop l ≠ Abort)
  ∧ (stList_length (Some l) = 0 → stList_pop l = Abort).
Proof.
  intros Hwf. pose proof Hwf as [(H0 & H1 & H2) _].
  assert (Hpop : stList_pop l = stList_remove l (stList_length (Some l) - 1)).
  { unfold stList_pop. cbn [stList_length]. by rewrite sub32_id by int32. }
  cbn [stList_length] in *. split_and!; [done| |].
  - intros Hpos.
    destruct (stList_remove_spec l (l_length l - 1) Hwf) as (x & l' & Hrm & Hx & _ & Hel & Hlen & _);
      [lia|].
    destruct (wf_inv l Hwf) as (_ & _ & _ & _ & _ & _ & Hlen_el).
    exists x, l'. rewrite Hpop, Hrm. split_and!; try done.
    + rewrite last_lookup. rewrite <- Hx. f_equal. lia.
    + rewrite Hel, delete_take_drop. rewrite drop_ge by lia. by rewrite app_nil_r.
  - intros Hz. rewrite Hpop, Hz. reflexivity.
Qed.

Lemma stList_pop_last_witness :
  wf (mk_stList 2 5 (Some [20; 30; 0; 0; 0]) NULL)
  ∧ stList_pop (mk_stList 2 5 (Some [20; 30; 0; 0; 0]) NULL)
    = stList_remove (mk_stList 2 5 (Some [20; 30; 0; 0; 0]) NULL) (2 - 1)
  ∧ (2 > 0 →
     ∃ x l', stList_pop (mk_stList 2 5 (Some [20; 30; 0; 0; 0]) NULL) = Ok (x, l')
             ∧ last [20; 30] = Some x
             ∧ stList_length (Some l') = 2 - 1
             ∧ elements l' = [20]
             ∧ stList_pop (mk_stList 2 5 (Some [20; 30; 0; 0; 0]) NULL) ≠ Abort)
  ∧ (2 = 0 → stList_pop (mk_stList 2 5 (Some [20; 30; 0; 0; 0]) NULL) = Abort).
Proof.
  assert (Hwf : wf (mk_stList 2 5 (Some [20; 30; 0; 0; 0]) NULL)).
  { split; [unfold stList_invariant, INT32_MAX; simpl; lia|]. by eexists. }
  split; [exact Hwf|].
  exact (stList_pop_last (mk_stList 2 5 (Some [20; 30; 0; 0; 0]) NULL) Hwf).
Defined.

(** ** Reversal *)

(** One pass of the loop of [stList_reverse]: the slots [i] and [j-1-i]
    swap their contents. *)
Lemma stList_reverse_body pre a mid b rest len cap d j i :
  i = Z.of_nat (length pre) →
  j - 1 - i = Z.of_nat (length pre + 1 + length mid) →
  j - 1 - i < len → j <= INT32_MAX →
  (o ← stList_get (mk_stList len cap (Some (pre ++ a :: mid ++ b :: rest)) d)
         (sub32 (sub32 j 1) i);
   x ← stList_get (mk_stList len cap (Some (pre ++ a :: mid ++ b :: rest)) d) i;
   l ← stList_set (mk_stList len cap (Some (pre ++ a :: mid ++ b :: rest)) d)
         (sub32 (sub32 j 1) i) x;
   stList_set l i o)
  = Ok (mk_stList len cap (Some (pre ++ b :: mid ++ a :: rest)) d).
Proof.
  intros Hi Hk Hlt Hj.
  rewrite (sub32_id j 1) by int32. rewrite sub32_id by int32.
  assert (Hshape : ∀ u w, pre ++ u :: mid ++ w :: rest = (pre ++ u :: mid) ++ w :: rest)
    by (intros; by rewrite <- app_assoc).
  assert (Hk' : Z.to_nat (j - 1 - i) = length (pre ++ a :: mid))
    by (rewrite length_app; simpl; lia).
  rewrite (stList_get_at _ _ _ _ (j - 1 - i) b); [|lia|].
  2:{ rewrite Hshape, Hk'. by apply list_lookup_middle. }
  cbn [mbind result_bind].
  rewrite (stList_get_at _ _ _ _ i a); [|lia|].
  2:{ apply list_lookup_middle. lia. }
  cbn [mbind result_bind].
  rewrite stList_set_at; [|lia|rewrite Hshape, length_app; simpl; lia].
  cbn [mbind result_bind].
  rewrite stList_set_at; [|lia|rewrite length_insert, !length_app; simpl; lia].
  do 3 f_equal.
  rewrite Hshape, Hk'.
  rewrite insert_app_r_alt by lia. rewrite Nat.sub_diag. cbn [insert list_insert].
  rewrite <- app_assoc. simpl.
  replace (Z.to_nat i) with (length pre) by lia.
  rewrite insert_app_r_alt by lia. rewrite Nat.sub_diag. done.
Qed.

(** The loop of [stList_reverse] after [length pre] passes: [mid] is still
    to be reversed. *)
Lemma stList_reverse_loop n : ∀ pre mid post tail len cap d,
  len = Z.of_nat (length pre + length mid + length post) →
  length pre = length post → (2 * n <= length mid <= 2 * n + 1)%nat →
  len <= INT32_MAX →
  for_loop n (Z.of_nat (length pre))
    (λ i l, o ← stList_get l (sub32 (sub32 len 1) i);
            x ← stList_get l i;
            l ← stList_set l (sub32 (sub32 len 1) i) x;
            stList_set l i o)
    (mk_stList len cap (Some (pre ++ mid ++ post ++ tail)) d)
  = Ok (mk_stList len cap (Some (pre ++ reverse mid ++ post ++ tail)) d).
Proof.
  induction n as [|n IH]; intros pre mid post tail len cap d Hlen Hpp Hmid Hmax.
  - destruct mid as [|a [|b mid]]; [done|done|simpl in Hmid; lia].
  - destruct mid as [|a mid]; [simpl in Hmid; lia|].
    destruct mid as [|b mid _] using rev_ind; [simpl in Hmid; lia|].
    rewrite length_cons, length_app in Hmid, Hlen. simpl in Hmid, Hlen.
    cbn [for_loop].
    replace (pre ++ (a :: mid ++ [b]) ++ post ++ tail)
      with (pre ++ a :: mid ++ b :: post ++ tail)
      by (by rewrite <- !app_comm_cons, <- !app_assoc).
    rewrite stList_reverse_body by lia.
    cbn [mbind result_bind].
    specialize (IH (pre ++ [b]) mid (a :: post) tail len cap d).
    rewrite length_app in IH. simpl in IH.
    replace (Z.of_nat (length pre) + 1) with (Z.of_nat (length pre + 1)) by lia.
    rewrite <- !app_assoc in IH. simpl in IH.
    rewrite IH by lia.
    do 3 f_equal. rewrite reverse_cons, reverse_app. simpl.
    by rewrite <- !app_assoc.
Qed.

Lemma stList_reverse_spec l :
  wf l →
  stList_reverse l
  = Ok (mk_stList (l_length l) (l_maxLength l)
          (Some (reverse (elements l) ++ spare l)) (l_destructElement l)).
Proof.
  intros [(H0 & H1 & H2) (buf & Hb & Hlen)].
  destruct l as [len cap lst d]; simpl in *. subst lst.
  unfold stList_reverse, elements, spare, div32. simpl.
  rewrite Z.quot_div_nonneg by lia.
  pose proof (Z.div_mod len 2 ltac:(lia)) as Hdiv.
  pose proof (Z.mod_pos_bound len 2 ltac:(lia)) as Hmod.
  rewrite wrap32_id by int32.
  pose proof (stList_reverse_loop (Z.to_nat (len / 2)) [] (take (Z.to_nat len) buf) []
                (drop (Z.to_nat len) buf) len cap d) as Hloop.
  simpl in Hloop. change (Z.of_nat 0) with 0 in Hloop.
  rewrite take_drop in Hloop. rewrite length_take in Hloop.
  apply Hloop; [lia|done|lia|lia].
Qed.

(** C9.  [stList_reverse()] succeeds on every container and puts the
    element of index [i] at index [length-1-i]; applying it twice gives
    back the original container. *)
Theorem stList_reverse_involution l :
  wf l →
  ∃ l', stList_reverse l = Ok l'
        ∧ (stList_reverse l ≫= stList_reverse) = Ok l
        ∧ elements l' = reverse (elements l)
        ∧ ∀ i, 0 <= i < stList_length (Some l) →
               stList_get l' (stList_length (Some l) - 1 - i) = stList_get l i.
Proof.
  intros Hwf. rewrite (stList_reverse_spec l Hwf).
  destruct (wf_inv l Hwf) as (buf & Hl & Hlen & Hr & Hc & Hbuf & Hel).
  set (l' := mk_stList (l_length l) (l_maxLength l)
               (Some (reverse (elements l) ++ spare l)) (l_destructElement l)).
  assert (Hel' : elements l' = reverse (elements l)).
  { unfold l'. rewrite elements_mk. rewrite take_app_length'; [done|].
    rewrite length_reverse. lia. }
  assert (Hsp' : spare l' = spare l).
  { unfold l', spare at 1. simpl. rewrite drop_app_length'; [done|].
    rewrite length_reverse. lia. }
  assert (Hwf' : wf l').
  { split; [unfold stList_invariant, l'; simpl; lia|].
    eexists. split; [reflexivity|]. rewrite length_app, length_reverse, <- length_app, <- Hbuf.
    done. }
  exists l'. split_and!; [done| |done|].
  - cbn [mbind result_bind]. rewrite (stList_reverse_spec l' Hwf').
    rewrite Hel', Hsp', reverse_involutive, <- Hbuf. unfold l'. simpl. by rewrite <- Hl.
  - cbn [stList_length]. intros i Hi.
    destruct (stList_get_elements l i Hwf Hi) as (x & Hx & ->).
    apply stList_get_lookup; [done|unfold l'; simpl; lia|].
    rewrite Hel', reverse_lookup by lia. rewrite <- Hx. f_equal. lia.
Qed.

Lemma stList_reverse_involution_witness :
  wf (mk_stList 3 5 (Some [10; 20; 30; 0; 0]) NULL)
  ∧ ∃ l', stList_reverse (mk_stList 3 5 (Some [10; 20; 30; 0; 0]) NULL) = Ok l'
          ∧ (stList_reverse (mk_stList 3 5 (Some [10; 20; 30; 0; 0]) NULL) ≫= stList_reverse)
            = Ok (mk_stList 3 5 (Some [10; 20; 30; 0; 0]) NULL)
          ∧ elements l' = [30; 20; 10]
          ∧ ∀ i, 0 <= i < 3 →
                 stList_get l' (3 - 1 - i)
                 = stList_get (mk_stList 3 5 (Some [10; 20; 30; 0; 0]) NULL) i.
Proof.
  assert (Hwf : wf (mk_stList 3 5 (Some [10; 20; 30; 0; 0]) NULL)).
  { split; [unfold stList_invariant, INT32_MAX; simpl; lia|]. by eexists. }
  split; [exact Hwf|].
  exact (stList_reverse_involution (mk_stList 3 5 (Some [10; 20; 30; 0; 0]) NULL) Hwf).
Defined.

(** ** Teardown *)

(** The loop of [destructElements] over the elements [rest], from index
    [length pre] on: one call per element that is not [NULL], in order. *)
Lemma destructElements_loop rest : ∀ pre tail len cap d tr,
  len = Z.of_nat (length pre + length rest) →
  for_loop (length rest) (Z.of_nat (length pre))
    (λ i tr,
       x ← stList_get (mk_stList len cap (Some (pre ++ rest ++ tail)) d) i;
       if negb (x =? NULL)
       then y ← stList_get (mk_stList len cap (Some (pre ++ rest ++ tail)) d) i;
            Ok (tr ++ [Call d y])
       else Ok tr)
    tr
  = Ok (tr ++ (Call d <$> filter (λ x, x ≠ NULL) rest)).
Proof.
  induction rest as [|r rest IH]; intros pre tail len cap d tr Hlen.
  - simpl. by rewrite app_nil_r.
  - simpl length in *. cbn [for_loop].
    assert (Hr : (pre ++ (r :: rest) ++ tail) !! Z.to_nat (Z.of_nat (length pre)) = Some r).
    { rewrite Nat2Z.id. by apply list_lookup_middle. }
    rewrite !(stList_get_at _ _ _ _ _ r) by (done || lia).
    cbn [mbind result_bind].
    specialize (IH (pre ++ [r]) tail len cap d).
    rewrite length_app, <- app_assoc in IH. simpl in IH.
    replace (Z.of_nat (length pre) + 1) with (Z.of_nat (length pre + 1)) by lia.
    destruct (Z.eqb_spec r NULL) as [Heq|Hne]; simpl.
    + rewrite IH by lia. by rewrite filter_cons_False by (intros ?; done).
    + rewrite IH by lia. rewrite filter_cons_True by done.
      by rewrite <- app_assoc.
Qed.

Lemma destructElements_spec l :
  wf l →
  destructElements l
  = Ok (Call (l_destructElement l) <$> filter (λ x, x ≠ NULL) (elements l)).
Proof.
  intros [(H0 & H1 & H2) (buf & Hb & Hlen)].
  destruct l as [len cap lst d]; simpl in *. subst lst.
  unfold destructElements, elements. simpl.
  pose proof (destructElements_loop (take (Z.to_nat len) buf) [] (drop (Z.to_nat len) buf)
                len cap d []) as Hloop.
  simpl in Hloop. change (Z.of_nat 0) with 0 in Hloop.
  rewrite take_drop, length_take in Hloop.
  replace (Z.to_nat len `min` length buf)%nat with (Z.to_nat len) in Hloop by lia.
  apply Hloop. lia.
Qed.

(** C1, as amended.  For every container with a registered destructor,
    [stList_destruct] calls the destructor exactly once on each of the
    [length] live elements that is not [NULL], in index order, and on no
    [NULL] element; then it frees the block, then the container.  On a
    [NULL] container it does nothing. *)
Theorem stList_destruct_trace l :
  wf l → l_destructElement l ≠ NULL →
  stList_destruct (Some l)
  = Ok ((Call (l_destructElement l) <$> filter (λ x, x ≠ NULL) (elements l))
          ++ [FreeBuffer; FreeList])
  ∧ stList_destruct None = Ok [].
Proof.
  intros Hwf Hd. split; [|done].
  unfold stList_destruct.
  destruct (Z.eqb_spec (l_destructElement l) NULL) as [|_]; [done|]. simpl.
  rewrite (destructElements_spec l Hwf). simpl.
  destruct Hwf as [_ (buf & -> & _)]. done.
Qed.

Lemma stList_destruct_trace_witness :
  wf (mk_stList 3 5 (Some [7; 0; 9; 0; 0]) 1)
  ∧ 1 ≠ NULL
  ∧ stList_destruct (Some (mk_stList 3 5 (Some [7; 0; 9; 0; 0]) 1))
    = Ok [Call 1 7; Call 1 9; FreeBuffer; FreeList]
  ∧ stList_destruct None = Ok [].
Proof.
  assert (Hwf : wf (mk_stList 3 5 (Some [7; 0; 9; 0; 0]) 1)).
  { split; [unfold stList_invariant, INT32_MAX; simpl; lia|]. by eexists. }
  assert (Hd : l_destructElement (mk_stList 3 5 (Some [7; 0; 9; 0; 0]) 1) ≠ NULL) by done.
  split; [exact Hwf|]. split; [exact Hd|].
  exact (stList_destruct_trace (mk_stList 3 5 (Some [7; 0; 9; 0; 0]) 1) Hwf Hd).
Defined.

(** C1 fails as stated: the list [7; NULL; 9] with destructor [1] has
    three live elements, and [stList_destruct] calls the destructor on two
    of them only; the element [NULL] at index 1 is passed over. *)
Lemma stList_destruct_trace_counterexample :
  wf (mk_stList 3 3 (Some [7; NULL; 9]) 1)
  ∧ stList_destruct (Some (mk_stList 3 3 (Some [7; NULL; 9]) 1))
    = Ok [Call 1 7; Call 1 9; FreeBuffer; FreeList]
  ∧ stList_destruct (Some (mk_stList 3 3 (Some [7; NULL; 9]) 1))
    ≠ Ok ((Call 1 <$> elements (mk_stList 3 3 (Some [7; NULL; 9]) 1))
            ++ [FreeBuffer; FreeList]).
Proof.
  split_and!.
  - split; [unfold stList_invariant, INT32_MAX; simpl; lia|]. by eexists.
  - reflexivity.
  - discriminate.
Qed.

(** ** The iterator *)

Section Iterator.

Variable m : gmap Z stList.

Lemma stList_getNext_end p i l :
  p = NULL ∨ (m !! p = Some l ∧ l_length l <= i) →
  stList_getNext m (mk_stListIterator p i) = Ok (NULL, mk_stListIterator p i).
Proof.
  unfold stList_getNext. simpl. intros [->|[Hl Hi]]; [done|].
  destruct (p =? NULL); [done|]. rewrite Hl. simpl. by test_true.
Qed.

Lemma stList_getNext_step p i l :
  p ≠ NULL → m !! p = Some l → wf l → 0 <= i < l_length l →
  ∃ x, elements l !! Z.to_nat i = Some x
       ∧ stList_getNext m (mk_stListIterator p i) = Ok (x, mk_stListIterator p (i + 1)).
Proof.
  intros Hp Hl Hwf Hi. pose proof Hwf as [(H0 & H1 & H2) _].
  destruct (stList_get_elements l i Hwf Hi) as (x & Hx & Hget).
  exists x. split; [done|]. unfold stList_getNext. simpl.
  destruct (Z.eqb_spec p NULL) as [|_]; [done|]. rewrite Hl. simpl.
  test_false. rewrite Hget. simpl. by rewrite add32_id by int32.
Qed.

Lemma stList_getPrevious_start p i :
  p = NULL ∨ i = 0 →
  stList_getPrevious m (mk_stListIterator p i) = Ok (NULL, mk_stListIterator p i).
Proof.
  unfold stList_getPrevious. simpl. intros [->| ->]; [done|].
  by rewrite orb_true_r.
Qed.

Lemma stList_getPrevious_step p i l :
  p ≠ NULL → m !! p = Some l → wf l → 0 < i <= l_length l →
  ∃ x, elements l !! Z.to_nat (i - 1) = Some x
       ∧ stList_getPrevious m (mk_stListIterator p i) = Ok (x, mk_stListIterator p (i - 1)).
Proof.
  intros Hp Hl Hwf Hi. pose proof Hwf as [(H0 & H1 & H2) _].
  destruct (stList_get_elements l (i - 1) Hwf) as (x & Hx & Hget); [lia|].
  exists x. split; [done|]. unfold stList_getPrevious. simpl.
  destruct (Z.eqb_spec p NULL) as [|_]; [done|].
  destruct (Z.eqb_spec i 0) as [|_]; [lia|]. simpl. rewrite Hl. simpl.
  rewrite sub32_id by int32. by rewrite Hget.
Qed.

(** [n] calls of [stList_getNext] move the cursor [n] positions on, but
    not past the end. *)
Lemma stList_getNext_n_spec p l n : ∀ i,
  p ≠ NULL → m !! p = Some l → wf l → 0 <= i <= l_length l →
  stList_getNext_n m n (mk_stListIterator p i)
  = Ok (mk_stListIterator p (Z.min (i + Z.of_nat n) (l_length l))).
Proof.
  induction n as [|n IH]; intros i Hp Hl Hwf Hi.
  - simpl. do 2 f_equal. lia.
  - cbn [stList_getNext_n].
    destruct (Z_lt_ge_dec i (l_length l)) as [Hlt|Hge].
    + destruct (stList_getNext_step p i l Hp Hl Hwf) as (x & _ & ->); [lia|].
      simpl. rewrite IH by (done || lia). do 2 f_equal. lia.
    + rewrite (stList_getNext_end p i l) by (right; split; [done|lia]).
      simpl. rewrite IH by (done || lia). do 2 f_equal. lia.
Qed.

End Iterator.

(** C5, as amended.  An iterator whose list pointer is [NULL], or whose
    cursor is at or past the length, gets [NULL] from [stList_getNext] and
    keeps its cursor; an iterator whose list pointer is [NULL], or whose
    cursor is 0, gets [NULL] from [stList_getPrevious] and keeps its
    cursor.  For an iterator on a container with its cursor within
    [0 .. length]: below the length [stList_getNext] returns the element
    stored at the cursor and moves the cursor on by 1; above 0
    [stList_getPrevious] moves the cursor back by 1 and returns the element
    stored there; and after [stList_getNext] has been called to exhaustion
    (any number [n >= length] of times) on a non-empty list, one
    [stList_getPrevious] returns the last element. *)
Theorem stList_iterator_steps (m : gmap Z stList) p i :
  (p = NULL →
   stList_getNext m (mk_stListIterator p i) = Ok (NULL, mk_stListIterator p i)
   ∧ stList_getPrevious m (mk_stListIterator p i) = Ok (NULL, mk_stListIterator p i))
  ∧ (∀ l, m !! p = Some l → i >= stList_length (Some l) →
     stList_getNext m (mk_stListIterator p i) = Ok (NULL, mk_stListIterator p i))
  ∧ (i = 0 →
     stList_getPrevious m (mk_stListIterator p i) = Ok (NULL, mk_stListIterator p i))
  ∧ (∀ l, p ≠ NULL → m !! p = Some l → wf l → 0 <= i <= stList_length (Some l) →
     (i < stList_length (Some l) →
      ∃ x, elements l !! Z.to_nat i = Some x
           ∧ stList_get l i = Ok x
           ∧ stList_getNext m (mk_stListIterator p i)
             = Ok (x, mk_stListIterator p (i + 1)))
     ∧ (i ≠ 0 →
        ∃ x, elements l !! Z.to_nat (i - 1) = Some x
             ∧ stList_get l (i - 1) = Ok x
             ∧ stList_getPrevious m (mk_stListIterator p i)
               = Ok (x, mk_stListIterator p (i - 1)))
     ∧ (stList_length (Some l) > 0 →
        ∀ n, (Z.to_nat (stList_length (Some l)) <= n)%nat →
        ∃ x, last (elements l) = Some x
             ∧ (stList_getNext_n m n (stList_getIterator p) ≫= stList_getPrevious m)
               = Ok (x, mk_stListIterator p (stList_length (Some l) - 1)))).
Proof.
  split_and!.
  - intros ->. split; [by apply (stList_getNext_end m NULL i (mk_stList 0 0 None 0)); left|].
    apply stList_getPrevious_start. by left.
  - intros l Hl Hge. cbn [stList_length] in *.
    apply (stList_getNext_end m p i l). right. split; [done|lia].
  - intros ->. apply stList_getPrevious_start. by right.
  - intros l Hp Hl Hwf Hi. cbn [stList_length] in *. split_and!.
    + intros Hlt. destruct (stList_getNext_step m p i l Hp Hl Hwf) as (x & Hx & Hnext); [lia|].
      exists x. split_and!; [done| |done]. apply stList_get_lookup; [done|lia|done].
    + intros Hne. destruct (stList_getPrevious_step m p i l Hp Hl Hwf) as (x & Hx & Hprev); [lia|].
      exists x. split_and!; [done| |done]. apply stList_get_lookup; [done|lia|done].
    + intros Hpos n Hn. unfold stList_getIterator.
      rewrite (stList_getNext_n_spec m p l n 0 Hp Hl Hwf) by lia.
      replace (Z.min (0 + Z.of_nat n) (l_length l)) with (l_length l) by lia.
      cbn [mbind result_bind].
      destruct (stList_getPrevious_step m p (l_length l) l Hp Hl Hwf) as (x & Hx & Hprev); [lia|].
      exists x. split; [|done].
      destruct (wf_inv l Hwf) as (_ & _ & _ & _ & _ & _ & Hel).
      rewrite last_lookup, <- Hx. f_equal. lia.
Qed.

Lemma stList_iterator_steps_witness :
  ({[ 100 := mk_stList 3 5 (Some [10; 20; 30; 0; 0]) NULL ]} : gmap Z stList) !! 100
    = Some (mk_stList 3 5 (Some [10; 20; 30; 0; 0]) NULL)
  ∧ wf (mk_stList 3 5 (Some [10; 20; 30; 0; 0]) NULL)
  ∧ (∃ x, elements (mk_stList 3 5 (Some [10; 20; 30; 0; 0]) NULL) !! Z.to_nat 1 = Some x
          ∧ stList_get (mk_stList 3 5 (Some [10; 20; 30; 0; 0]) NULL) 1 = Ok x
          ∧ stList_getNext {[ 100 := mk_stList 3 5 (Some [10; 20; 30; 0; 0]) NULL ]}
              (mk_stListIterator 100 1)
            = Ok (x, mk_stListIterator 100 (1 + 1)))
  ∧ (∃ x, elements (mk_stList 3 5 (Some [10; 20; 30; 0; 0]) NULL) !! Z.to_nat (1 - 1) = Some x
          ∧ stList_get (mk_stList 3 5 (Some [10; 20; 30; 0; 0]) NULL) (1 - 1) = Ok x
          ∧ stList_getPrevious {[ 100 := mk_stList 3 5 (Some [10; 20; 30; 0; 0]) NULL ]}
              (mk_stListIterator 100 1)
            = Ok (x, mk_stListIterator 100 (1 - 1)))
  ∧ (∃ x, last [10; 20; 30] = Some x
          ∧ (stList_getNext_n {[ 100 := mk_stList 3 5 (Some [10; 20; 30; 0; 0]) NULL ]} 4
               (stList_getIterator 100)
             ≫= stList_getPrevious {[ 100 := mk_stList 3 5 (Some [10; 20; 30; 0; 0]) NULL ]})
            = Ok (x, mk_stListIterator 100 (3 - 1))).
Proof.
  assert (Hl : ({[ 100 := mk_stList 3 5 (Some [10; 20; 30; 0; 0]) NULL ]} : gmap Z stList) !! 100
               = Some (mk_stList 3 5 (Some [10; 20; 30; 0; 0]) NULL))
    by apply lookup_singleton_eq.
  assert (Hwf : wf (mk_stList 3 5 (Some [10; 20; 30; 0; 0]) NULL)).
  { split; [unfold stList_invariant, INT32_MAX; simpl; lia|]. by eexists. }
  assert (Hp : 100 ≠ NULL) by done.
  assert (Hi : 0 <= 1 <= stList_length (Some (mk_stList 3 5 (Some [10; 20; 30; 0; 0]) NULL)))
    by (simpl; lia).
  split; [exact Hl|]. split; [exact Hwf|].
  destruct (stList_iterator_steps {[ 100 := mk_stList 3 5 (Some [10; 20; 30; 0; 0]) NULL ]} 100 1)
    as (_ & _ & _ & H).
  destruct (H _ Hp Hl Hwf Hi) as (Hnext & Hprev & Hex).
  split; [apply Hnext; simpl; lia|]. split; [apply Hprev; lia|].
  apply Hex; simpl; lia.
Defined.

(** C5 fails as stated for an iterator whose cursor is past the end of its
    list.  Create a list, append 10, take a new iterator on it and call
    [stList_getNext] once: the cursor is 1.  [stList_pop] then empties the
    list.  The list pointer is not [NULL] and the cursor is not 0, but
    [stList_getPrevious] does not return an element: it moves the cursor
    to 0 and stops at [assert(index < stList_length(list))] of
    [stList_get]. *)
Lemma stList_iterator_steps_counterexample :
  (stList_construct ≫= λ l0, stList_append (λ _, NULL) l0 10)
  = Ok (mk_stList 1 5 (Some [10; 0; 0; 0; 0]) NULL)
  ∧ stList_getNext {[ 100 := mk_stList 1 5 (Some [10; 0; 0; 0; 0]) NULL ]}
      (stList_getIterator 100)
    = Ok (10, mk_stListIterator 100 1)
  ∧ stList_pop (mk_stList 1 5 (Some [10; 0; 0; 0; 0]) NULL)
    = Ok (10, mk_stList 0 5 (Some [10; 0; 0; 0; 0]) NULL)
  ∧ wf (mk_stList 0 5 (Some [10; 0; 0; 0; 0]) NULL)
  ∧ it_list (mk_stListIterator 100 1) ≠ NULL
  ∧ it_index (mk_stListIterator 100 1) ≠ 0
  ∧ stList_getPrevious
      (<[ 100 := mk_stList 0 5 (Some [10; 0; 0; 0; 0]) NULL ]>
         {[ 100 := mk_stList 1 5 (Some [10; 0; 0; 0; 0]) NULL ]})
      (mk_stListIterator 100 1)
    = Abort
  ∧ ¬ ∃ x, stList_getPrevious
             (<[ 100 := mk_stList 0 5 (Some [10; 0; 0; 0; 0]) NULL ]>
                {[ 100 := mk_stList 1 5 (Some [10; 0; 0; 0; 0]) NULL ]})
             (mk_stListIterator 100 1)
           = Ok (x, mk_stListIterator 100 (1 - 1)).
Proof.
  assert (Hprev : stList_getPrevious
                    (<[ 100 := mk_stList 0 5 (Some [10; 0; 0; 0; 0]) NULL ]>
                       {[ 100 := mk_stList 1 5 (Some [10; 0; 0; 0; 0]) NULL ]})
                    (mk_stListIterator 100 1) = Abort).
  { unfold stList_getPrevious. simpl. by rewrite lookup_insert_eq. }
  split_and!.
  - reflexivity.
  - unfold stList_getNext, stList_getIterator. simpl. by rewrite lookup_singleton_eq.
  - reflexivity.
  - split; [unfold stList_invariant, INT32_MAX; simpl; lia|]. by eexists.
  - done.
  - done.
  - exact Hprev.
  - intros (x & Hx). rewrite Hprev in Hx. discriminate Hx.
Qed.

(** C10.  When the element stored at the cursor is [NULL],
    [stList_getNext] returns [NULL] and moves the cursor on by 1; at the
    end of the list it returns the same [NULL], so the returned value does
    not tell the two apart.  Further calls go on past the [NULL] element
    to the later ones: [j - i] calls after cursor [i] the cursor is at
    [j], and the next call returns the element stored at index [j]. *)
Theorem stList_getNext_null_element (m : gmap Z stList) p l i :
  p ≠ NULL → m !! p = Some l → wf l → 0 <= i < stList_length (Some l) →
  elements l !! Z.to_nat i = Some NULL →
  stList_getNext m (mk_stListIterator p i) = Ok (NULL, mk_stListIterator p (i + 1))
  ∧ stList_getNext m (mk_stListIterator p (stList_length (Some l)))
    = Ok (NULL, mk_stListIterator p (stList_length (Some l)))
  ∧ ∀ j x, i < j < stList_length (Some l) → elements l !! Z.to_nat j = Some x →
      stList_getNext_n m (Z.to_nat (j - i)) (mk_stListIterator p i)
      = Ok (mk_stListIterator p j)
      ∧ stList_getNext m (mk_stListIterator p j) = Ok (x, mk_stListIterator p (j + 1)).
Proof.
  cbn [stList_length]. intros Hp Hl Hwf Hi Hnull. split_and!.
  - destruct (stList_getNext_step m p i l Hp Hl Hwf Hi) as (x & Hx & ->).
    rewrite Hnull in Hx. by injection Hx as <-.
  - apply (stList_getNext_end m p _ l). right. split; [done|lia].
  - intros j x Hj Hget. split.
    + rewrite (stList_getNext_n_spec m p l _ i Hp Hl Hwf) by lia. do 2 f_equal. lia.
    + destruct (stList_getNext_step m p j l Hp Hl Hwf) as (y & Hy & ->); [lia|].
      rewrite Hget in Hy. by injection Hy as <-.
Qed.

Lemma stList_getNext_null_element_witness :
  wf (mk_stList 3 5 (Some [10; NULL; 30; 0; 0]) NULL)
  ∧ elements (mk_stList 3 5 (Some [10; NULL; 30; 0; 0]) NULL) !! Z.to_nat 1 = Some NULL
  ∧ stList_getNext {[ 100 := mk_stList 3 5 (Some [10; NULL; 30; 0; 0]) NULL ]}
      (mk_stListIterator 100 1)
    = Ok (NULL, mk_stListIterator 100 (1 + 1))
  ∧ stList_getNext {[ 100 := mk_stList 3 5 (Some [10; NULL; 30; 0; 0]) NULL ]}
      (mk_stListIterator 100 3)
    = Ok (NULL, mk_stListIterator 100 3)
  ∧ stList_getNext_n {[ 100 := mk_stList 3 5 (Some [10; NULL; 30; 0; 0]) NULL ]}
      (Z.to_nat (2 - 1)) (mk_stListIterator 100 1)
    = Ok (mk_stListIterator 100 2)
  ∧ stList_getNext {[ 100 := mk_stList 3 5 (Some [10; NULL; 30; 0; 0]) NULL ]}
      (mk_stListIterator 100 2)
    = Ok (30, mk_stListIterator 100 (2 + 1)).
Proof.
  assert (Hwf : wf (mk_stList 3 5 (Some [10; NULL; 30; 0; 0]) NULL)).
  { split; [unfold stList_invariant, INT32_MAX; simpl; lia|]. by eexists. }
  assert (Hnull : elements (mk_stList 3 5 (Some [10; NULL; 30; 0; 0]) NULL) !! Z.to_nat 1
                  = Some NULL) by reflexivity.
  assert (Hl : ({[ 100 := mk_stList 3 5 (Some [10; NULL; 30; 0; 0]) NULL ]} : gmap Z stList) !! 100
               = Some (mk_stList 3 5 (Some [10; NULL; 30; 0; 0]) NULL))
    by apply lookup_singleton_eq.
  assert (Hp : 100 ≠ NULL) by done.
  assert (Hi : 0 <= 1 < stList_length (Some (mk_stList 3 5 (Some [10; NULL; 30; 0; 0]) NULL)))
    by (simpl; lia).
  split; [exact Hwf|]. split; [exact Hnull|].
  destruct (stList_getNext_null_element _ 100 _ 1 Hp Hl Hwf Hi Hnull) as (Hstep & Hend & Hlater).
  split; [exact Hstep|]. split; [exact Hend|].
  apply (Hlater 2 30); [simpl; lia|reflexivity].
Defined.

(** ** Filters *)

Section Filter.

Variable uninit : nat → ptr.
Variable stSortedSet : Type.
Variable stSortedSet_search : stSortedSet → ptr → ptr.

(** The loop of [filterP] over the elements [rest], from index
    [length pre] on: the selected elements are appended in order. *)
Lemma filterP_loop set include rest : ∀ pre tail len cap d list2,
  len = Z.of_nat (length pre + length rest) →
  for_loop (length rest) (Z.of_nat (length pre))
    (λ i list2,
       o ← stList_get (mk_stList len cap (Some (pre ++ rest ++ tail)) d) i;
       if (negb (stSortedSet_search set o =? NULL) && include)
          || ((stSortedSet_search set o =? NULL) && negb include)
       then stList_append uninit list2 o
       else Ok list2)
    list2
  = stList_appends uninit list2 (filter (selected stSortedSet_search set include) rest).
Proof.
  induction rest as [|r rest IH]; intros pre tail len cap d list2 Hlen; [done|].
  simpl length in *. cbn [for_loop].
  assert (Hr : (pre ++ (r :: rest) ++ tail) !! Z.to_nat (Z.of_nat (length pre)) = Some r).
  { rewrite Nat2Z.id. by apply list_lookup_middle. }
  rewrite (stList_get_at _ _ _ _ _ r) by (done || lia).
  cbn [mbind result_bind].
  specialize (IH (pre ++ [r]) tail len cap d).
  rewrite length_app, <- app_assoc in IH. simpl in IH.
  replace (Z.of_nat (length pre) + 1) with (Z.of_nat (length pre + 1)) by lia.
  assert (Hsel : ((negb (stSortedSet_search set r =? NULL) && include)
                  || ((stSortedSet_search set r =? NULL) && negb include)) = true
                 ↔ selected stSortedSet_search set include r).
  { unfold selected.
    destruct (Z.eqb_spec (stSortedSet_search set r) NULL), include; simpl; naive_solver. }
  destruct ((negb (stSortedSet_search set r =? NULL) && include)
            || ((stSortedSet_search set r =? NULL) && negb include)).
  - rewrite filter_cons_True by (by apply Hsel). simpl.
    destruct (stList_append uninit list2 r); simpl; [apply IH; lia|done|done].
  - rewrite filter_cons_False by (intros H; by apply Hsel in H).
    apply IH. lia.
Qed.

Lemma filterP_spec l set include :
  wf l →
  filterP uninit stSortedSet stSortedSet_search l set include
  = stList_appends uninit (mk_stList 0 0 (Some []) NULL)
      (filter (selected stSortedSet_search set include) (elements l)).
Proof.
  intros [(H0 & H1 & H2) (buf & Hb & Hlen)].
  destruct l as [len cap lst d]; simpl in *. subst lst.
  unfold filterP. rewrite stList_construct_eq. cbn [mbind result_bind stList_length l_length].
  rewrite elements_mk.
  pose proof (filterP_loop set include (take (Z.to_nat len) buf) [] (drop (Z.to_nat len) buf)
                len cap d (mk_stList 0 0 (Some []) NULL)) as Hloop.
  simpl in Hloop. change (Z.of_nat 0) with 0 in Hloop.
  rewrite take_drop, length_take in Hloop.
  replace (Z.to_nat len `min` length buf)%nat with (Z.to_nat len) in Hloop by lia.
  apply Hloop. lia.
Qed.

Lemma filterP_ok l set include :
  wf l →
  Z.of_nat (length (filter (selected stSortedSet_search set include) (elements l)))
    <= MAX_GROWN_CAPACITY →
  ∃ l', filterP uninit stSortedSet stSortedSet_search l set include = Ok l'
        ∧ wf l'
        ∧ elements l' = filter (selected stSortedSet_search set include) (elements l).
Proof.
  intros Hwf Hlen. rewrite (filterP_spec l set include Hwf).
  destruct (stList_appends_spec uninit
              (filter (selected stSortedSet_search set include) (elements l))
              (mk_stList 0 0 (Some []) NULL))
    as (l' & Hrun & Hwf' & _ & Hel & _).
  { apply stList_construct_wf. }
  { apply stList_construct_growing. }
  { simpl. lia. }
  exists l'. by rewrite Hel.
Qed.

Lemma filterP_overflow l set include :
  wf l →
  MAX_GROWN_CAPACITY
    < Z.of_nat (length (filter (selected stSortedSet_search set include) (elements l))) →
  filterP uninit stSortedSet stSortedSet_search l set include = Abort.
Proof.
  intros Hwf Hlen. rewrite (filterP_spec l set include Hwf).
  apply stList_appends_overflow.
  - apply stList_construct_wf.
  - apply stList_construct_growing.
  - simpl. lia.
Qed.

End Filter.

Lemma filter_replicate_all {A} (P : A → Prop) `{∀ x, Decision (P x)} n x :
  P x → filter P (replicate n x) = replicate n x.
Proof.
  intros Hx. induction n as [|n IH]; [done|].
  cbn [replicate]. rewrite filter_cons_True by done. by rewrite IH.
Qed.

(** C6, as amended.  For every container and every sorted set, provided
    neither result has more than 1342177275 elements,
    [stList_filterToInclude] and [stList_filterToExclude] both succeed and
    partition the elements of the source: the first holds the elements
    found in the set, the second those not found, each in the order of the
    source, and the two together are a permutation of the source. *)
Theorem stList_filter_partition uninit (stSortedSet : Type)
    (stSortedSet_search : stSortedSet → ptr → ptr) l set :
  wf l →
  Z.of_nat (length (filter (λ o, stSortedSet_search set o ≠ NULL) (elements l)))
    <= MAX_GROWN_CAPACITY →
  Z.of_nat (length (filter (λ o, stSortedSet_search set o = NULL) (elements l)))
    <= MAX_GROWN_CAPACITY →
  ∃ inc exc,
    stList_filterToInclude uninit stSortedSet stSortedSet_search l set = Ok inc
    ∧ stList_filterToExclude uninit stSortedSet stSortedSet_search l set = Ok exc
    ∧ elements inc = filter (λ o, stSortedSet_search set o ≠ NULL) (elements l)
    ∧ elements exc = filter (λ o, stSortedSet_search set o = NULL) (elements l)
    ∧ elements inc `sublist_of` elements l
    ∧ elements exc `sublist_of` elements l
    ∧ elements inc ++ elements exc ≡ₚ elements l.
Proof.
  intros Hwf Hinc Hexc. unfold stList_filterToInclude, stList_filterToExclude.
  destruct (filterP_ok uninit stSortedSet stSortedSet_search l set true Hwf Hinc)
    as (inc & -> & _ & Hi).
  destruct (filterP_ok uninit stSortedSet stSortedSet_search l set false Hwf Hexc)
    as (exc & -> & _ & He).
  exists inc, exc. change (selected stSortedSet_search set true)
    with (λ o, stSortedSet_search set o ≠ NULL) in Hi.
  change (selected stSortedSet_search set false)
    with (λ o, stSortedSet_search set o = NULL) in He.
  split_and!; try done.
  - rewrite Hi. apply sublist_filter.
  - rewrite He. apply sublist_filter.
  - rewrite Hi, He.
    rewrite (list_filter_iff (λ o, stSortedSet_search set o = NULL)
               (λ o, ¬ stSortedSet_search set o ≠ NULL)).
    + apply filter_app_complement.
    + intros o. destruct (decide (stSortedSet_search set o = NULL)); naive_solver.
Qed.

Lemma stList_filter_partition_witness :
  wf (mk_stList 4 5 (Some [1; 2; 3; 4; 0]) NULL)
  ∧ ∃ inc exc,
      stList_filterToInclude (λ _, NULL) (list Z)
        (λ s o, if existsb (Z.eqb o) s then o else NULL)
        (mk_stList 4 5 (Some [1; 2; 3; 4; 0]) NULL) [2; 4] = Ok inc
      ∧ stList_filterToExclude (λ _, NULL) (list Z)
          (λ s o, if existsb (Z.eqb o) s then o else NULL)
          (mk_stList 4 5 (Some [1; 2; 3; 4; 0]) NULL) [2; 4] = Ok exc
      ∧ elements inc
        = filter (λ o, (if existsb (Z.eqb o) [2; 4] then o else NULL) ≠ NULL)
            (elements (mk_stList 4 5 (Some [1; 2; 3; 4; 0]) NULL))
      ∧ elements exc
        = filter (λ o, (if existsb (Z.eqb o) [2; 4] then o else NULL) = NULL)
            (elements (mk_stList 4 5 (Some [1; 2; 3; 4; 0]) NULL))
      ∧ elements inc `sublist_of` elements (mk_stList 4 5 (Some [1; 2; 3; 4; 0]) NULL)
      ∧ elements exc `sublist_of` elements (mk_stList 4 5 (Some [1; 2; 3; 4; 0]) NULL)
      ∧ elements inc ++ elements exc
        ≡ₚ elements (mk_stList 4 5 (Some [1; 2; 3; 4; 0]) NULL).
Proof.
  assert (Hwf : wf (mk_stList 4 5 (Some [1; 2; 3; 4; 0]) NULL)).
  { split; [unfold stList_invariant, INT32_MAX; simpl; lia|]. by eexists. }
  split; [exact Hwf|].
  apply (stList_filter_partition (λ _, NULL) (list Z)
           (λ s o, if existsb (Z.eqb o) s then o else NULL)
           (mk_stList 4 5 (Some [1; 2; 3; 4; 0]) NULL) [2; 4] Hwf).
  - vm_compute. discriminate.
  - vm_compute. discriminate.
Defined.

(** C6 fails as stated: the source of 1342177276 [NULL] elements that
    [stList_construct2] returns has none of its elements found in the set,
    and [stList_filterToExclude] stops at the [assert] of
    [st_list_appendP] when it appends element number 1342177276: there is
    no second container. *)
Lemma stList_filter_partition_counterexample :
  stList_construct2 1342177276 = Ok (fresh_list 1342177276 NULL)
  ∧ wf (fresh_list 1342177276 NULL)
  ∧ stList_filterToExclude (λ _, NULL) unit (λ _ _, NULL)
      (fresh_list 1342177276 NULL) () = Abort
  ∧ ¬ ∃ exc, stList_filterToExclude (λ _, NULL) unit (λ _ _, NULL)
               (fresh_list 1342177276 NULL) () = Ok exc.
Proof.
  assert (Hwf : wf (fresh_list 1342177276 NULL))
    by (apply fresh_list_wf; unfold INT32_MAX; lia).
  assert (Habort : stList_filterToExclude (λ _, NULL) unit (λ _ _, NULL)
                     (fresh_list 1342177276 NULL) () = Abort).
  { unfold stList_filterToExclude. apply filterP_overflow; [exact Hwf|].
    rewrite fresh_list_elements, filter_replicate_all by done.
    rewrite length_replicate. unfold MAX_GROWN_CAPACITY. lia. }
  split_and!.
  - unfold stList_construct2. apply stList_construct3_eq. lia.
  - exact Hwf.
  - exact Habort.
  - intros (exc & Hrun). rewrite Habort in Hrun. discriminate Hrun.
Qed.

(** ** The invariant [0 <= length <= capacity] *)

(** Reading an outcome back through the sequencing of calls. *)
Lemma bind_Ok {A B} (r : result A) (f : A → result B) b :
  r ≫= f = Ok b → ∃ a, r = Ok a ∧ f a = Ok b.
Proof. destruct r as [a| |]; simpl; [by exists a|done|done]. Qed.

Lemma c_assert_Ok b u : c_assert b = Ok u → b = true.
Proof. by destruct b. Qed.

Ltac bind_inv H :=
  let a := fresh "a" in
  let E := fresh "E" in
  apply bind_Ok in H as (a & E & H).

(** A property that every pass of a loop keeps holds after the loop. *)
Lemma for_loop_inv {S} (P : S → Prop) (body : Z → S → result S) n : ∀ i s s',
  (∀ i s s', P s → body i s = Ok s' → P s') →
  P s → for_loop n i body s = Ok s' → P s'.
Proof.
  induction n as [|n IH]; intros i s s' Hbody Hs Hrun; simpl in Hrun.
  - by injection Hrun as <-.
  - bind_inv Hrun. eapply IH; [done| |done]. by eapply Hbody.
Qed.

(** [stList_set] leaves the two counters alone. *)
Lemma stList_set_fields l i x l' :
  stList_set l i x = Ok l' →
  l_length l' = l_length l ∧ l_maxLength l' = l_maxLength l.
Proof.
  unfold stList_set. intros H. do 4 bind_inv H. by injection H as <-.
Qed.

Lemma stList_set_inv l i x l' :
  stList_invariant l → stList_set l i x = Ok l' → stList_invariant l'.
Proof.
  unfold stList_invariant. intros Hinv [-> ->]%stList_set_fields. done.
Qed.

Lemma stList_construct3_inv n d l :
  is_int32 n → stList_construct3 n d = Ok l → stList_invariant l.
Proof.
  unfold stList_construct3. intros Hn H. do 2 bind_inv H.
  apply c_assert_Ok in E. injection H as <-.
  unfold stList_invariant. simpl. int32.
Qed.

Section Invariant.

Variable uninit : nat → ptr.

Lemma stList_append_inv l v l' :
  stList_invariant l → stList_append uninit l v = Ok l' → stList_invariant l'.
Proof.
  unfold stList_invariant. intros (H0 & H1 & H2) H.
  unfold stList_append in H. cbn [stList_length] in H.
  destruct (Z.geb_spec (l_length l) (l_maxLength l)) as [Hge|Hlt].
  - assert (Hfull : l_length l = l_maxLength l) by lia.
    bind_inv H. bind_inv E. destruct a0 as [new size].
    injection E as <-. simpl in H.
    unfold st_list_appendP in E0. do 3 bind_inv E0. injection E0 as <- <-.
    apply c_assert_Ok in E. apply Z.leb_le in E.
    repeat bind_inv H. injection H as <-. simpl.
    destruct (Z_le_gt_dec (l_maxLength l) 1073741821) as [Hsmall|Hbig].
    + rewrite grow_size_id in * by lia.
      rewrite add32_id by int32. unfold INT32_MAX. lia.
    + rewrite grow_size_wraps in E by (unfold INT32_MAX in *; lia).
      unfold INT32_MAX in *. lia.
  - simpl in H. repeat bind_inv H. injection H as <-. simpl.
    rewrite add32_id by int32. lia.
Qed.

Lemma stList_appendAll_inv l src l' :
  stList_invariant l → stList_appendAll uninit l src = Ok l' → stList_invariant l'.
Proof.
  intros Hinv. unfold stList_appendAll. apply for_loop_inv; [|done].
  intros i s s' Hs H. do 2 bind_inv H. by eapply stList_append_inv.
Qed.

Lemma stList_remove_inv l i x l' :
  stList_invariant l → stList_remove l i = Ok (x, l') → stList_invariant l'.
Proof.
  unfold stList_invariant. intros (H0 & H1 & H2) H.
  unfold stList_remove in H. cbn [stList_length] in H. do 4 bind_inv H.
  apply c_assert_Ok, Z.geb_le in E. apply c_assert_Ok, Z.ltb_lt in E0.
  injection H as _ <-. simpl.
  assert (Hf : l_length a2 = l_length l ∧ l_maxLength a2 = l_maxLength l).
  { revert E2. apply (for_loop_inv (λ s, l_length s = l_length l ∧ l_maxLength s = l_maxLength l));
      [|done].
    intros j s s' [Hs1 Hs2] H. bind_inv H. apply stList_set_fields in H as [-> ->]. done. }
  destruct Hf as [-> ->]. rewrite sub32_id by int32. lia.
Qed.

Lemma stList_pop_inv l x l' :
  stList_invariant l → stList_pop l = Ok (x, l') → stList_invariant l'.
Proof. unfold stList_pop. apply stList_remove_inv. Qed.

Lemma stList_removeFirst_inv l x l' :
  stList_invariant l → stList_removeFirst l = Ok (x, l') → stList_invariant l'.
Proof. unfold stList_removeFirst. apply stList_remove_inv. Qed.

Lemma stList_removeItem_inv l item l' :
  stList_invariant l → stList_removeItem l item = Ok l' → stList_invariant l'.
Proof.
  intros Hinv. unfold stList_removeItem.
  generalize (Z.to_nat (stList_length (Some l))) as n. generalize 0 as i.
  intros i n. revert i. induction n as [|n IH]; intros i H; simpl in H.
  - by injection H as <-.
  - bind_inv H. destruct (a =? item).
    + bind_inv H. destruct a0 as [x l1]. injection H as <-.
      by eapply stList_remove_inv.
    + by eapply IH.
Qed.

Lemma stList_reverse_inv l l' :
  stList_invariant l → stList_reverse l = Ok l' → stList_invariant l'.
Proof.
  intros Hinv. unfold stList_reverse. apply for_loop_inv; [|done].
  intros i s s' Hs H. do 3 bind_inv H.
  eapply stList_set_inv; [|done]. by eapply stList_set_inv.
Qed.

Variable qsort : (ptr → ptr → Z) → list ptr → list ptr.

Lemma stList_sort_inv l cmpFn l' :
  stList_invariant l → stList_sort qsort l cmpFn = Ok l' → stList_invariant l'.
Proof.
  unfold stList_invariant, stList_sort. intros Hinv H.
  repeat case_match; simplify_eq; done.
Qed.

Variable rng : Type.
Variable st_randomInt : rng → Z → Z → Z * rng.

Lemma stList_shuffle_inv l g l' g' :
  stList_invariant l → stList_shuffle rng st_randomInt l g = Ok (l', g') →
  stList_invariant l'.
Proof.
  intros Hinv. unfold stList_shuffle.
  apply (for_loop_inv (λ s : stList * rng, stList_invariant s.1)); [|done].
  intros i [s gs] [s' gs'] Hs H. simpl in *.
  destruct (st_randomInt gs 0 (l_length s)) as [j g1].
  do 4 bind_inv H. injection H as <- _.
  eapply stList_set_inv; [|done]. by eapply stList_set_inv.
Qed.

Lemma stList_copy_inv src d l' :
  stList_copy uninit src d = Ok l' → stList_invariant l'.
Proof.
  unfold stList_copy. intros H. bind_inv H.
  eapply stList_appendAll_inv; [|done].
  eapply stList_construct3_inv; [|done]. int32.
Qed.

Lemma stList_construct_inv l : stList_construct = Ok l → stList_invariant l.
Proof. apply stList_construct3_inv. int32. Qed.

Lemma stList_filter_inv l fn l' :
  stList_filter uninit l fn = Ok l' → stList_invariant l'.
Proof.
  unfold stList_filter. intros H. bind_inv H. apply stList_construct_inv in E.
  revert H. apply for_loop_inv; [|done].
  intros i s s' Hs H. bind_inv H. destruct (fn a0).
  - by eapply stList_append_inv.
  - by injection H as <-.
Qed.

Variable stSortedSet : Type.
Variable stSortedSet_search : stSortedSet → ptr → ptr.

Lemma filterP_inv l set include l' :
  filterP uninit stSortedSet stSortedSet_search l set include = Ok l' →
  stList_invariant l'.
Proof.
  unfold filterP. intros H. bind_inv H. apply stList_construct_inv in E.
  revert H. apply for_loop_inv; [|done].
  intros i s s' Hs H. bind_inv H. case_match.
  - by eapply stList_append_inv.
  - by injection H as <-.
Qed.

Lemma stList_join_inv m listOfLists l' :
  stList_join uninit m listOfLists = Ok l' → stList_invariant l'.
Proof.
  unfold stList_join. intros H. bind_inv H. apply stList_construct_inv in E.
  revert H. apply for_loop_inv; [|done].
  intros i s s' Hs H. do 2 bind_inv H. by eapply stList_appendAll_inv.
Qed.

End Invariant.

(** C8.  The invariant [0 <= length <= capacity] (with the capacity
    within its [int32_t] field) holds of the container that any
    construction operation returns, and of the container that any
    mutating operation returns when it is given a container of which the
    invariant holds. *)
Theorem stList_invariant_preserved
    (uninit : nat → ptr) (qsort : (ptr → ptr → Z) → list ptr → list ptr)
    (rng : Type) (st_randomInt : rng → Z → Z → Z * rng)
    (stSortedSet : Type) (stSortedSet_search : stSortedSet → ptr → ptr) :
  (∀ l, stList_construct = Ok l → stList_invariant l)
  ∧ (∀ n l, is_int32 n → stList_construct2 n = Ok l → stList_invariant l)
  ∧ (∀ n d l, is_int32 n → stList_construct3 n d = Ok l → stList_invariant l)
  ∧ (∀ src d l, stList_copy uninit src d = Ok l → stList_invariant l)
  ∧ (∀ src fn l, stList_filter uninit src fn = Ok l → stList_invariant l)
  ∧ (∀ src set l,
       stList_filterToInclude uninit stSortedSet stSortedSet_search src set = Ok l →
       stList_invariant l)
  ∧ (∀ src set l,
       stList_filterToExclude uninit stSortedSet stSortedSet_search src set = Ok l →
       stList_invariant l)
  ∧ (∀ m src l, stList_join uninit m src = Ok l → stList_invariant l)
  ∧ (∀ l, stList_invariant l →
       (∀ v l', stList_append uninit l v = Ok l' → stList_invariant l')
       ∧ (∀ src l', stList_appendAll uninit l src = Ok l' → stList_invariant l')
       ∧ (∀ i v l', stList_set l i v = Ok l' → stList_invariant l')
       ∧ (∀ i x l', stList_remove l i = Ok (x, l') → stList_invariant l')
       ∧ (∀ x l', stList_removeFirst l = Ok (x, l') → stList_invariant l')
       ∧ (∀ x l', stList_pop l = Ok (x, l') → stList_invariant l')
       ∧ (∀ v l', stList_removeItem l v = Ok l' → stList_invariant l')
       ∧ (∀ l', stList_reverse l = Ok l' → stList_invariant l')
       ∧ (∀ cmpFn l', stList_sort qsort l cmpFn = Ok l' → stList_invariant l')
       ∧ (∀ g l' g', stList_shuffle rng st_randomInt l g = Ok (l', g') → stList_invariant l')
       ∧ (∀ d, stList_invariant (stList_setDestructor l d))).
Proof.
  split_and!.
  - apply stList_construct_inv.
  - intros n l Hn. by apply stList_construct3_inv.
  - intros n d l Hn. by apply stList_construct3_inv.
  - apply stList_copy_inv.
  - apply stList_filter_inv.
  - intros src set l. apply filterP_inv.
  - intros src set l. apply filterP_inv.
  - apply stList_join_inv.
  - intros l Hinv. split_and!.
    + intros v l'. by apply stList_append_inv.
    + intros src l'. by apply stList_appendAll_inv.
    + intros i v l'. by apply stList_set_inv.
    + intros i x l'. by apply stList_remove_inv.
    + intros x l'. by apply stList_removeFirst_inv.
    + intros x l'. by apply stList_pop_inv.
    + intros v l'. by apply stList_removeItem_inv.
    + intros l'. by apply stList_reverse_inv.
    + intros cmpFn l'. by apply stList_sort_inv.
    + intros g l' g'. by apply stList_shuffle_inv.
    + intros d. done.
Qed.

Lemma stList_invariant_preserved_witness :
  stList_invariant (mk_stList 2 2 (Some [11; 12]) NULL)
  ∧ stList_append (λ _, NULL) (mk_stList 2 2 (Some [11; 12]) NULL) 13
    = Ok (mk_stList 3 9 (Some [11; 12; 13; 0; 0; 0; 0; 0; 0]) NULL)
  ∧ stList_invariant (mk_stList 3 9 (Some [11; 12; 13; 0; 0; 0; 0; 0; 0]) NULL).
Proof.
  assert (Hinv : stList_invariant (mk_stList 2 2 (Some [11; 12]) NULL))
    by (unfold stList_invariant, INT32_MAX; simpl; lia).
  assert (Hrun : stList_append (λ _, NULL) (mk_stList 2 2 (Some [11; 12]) NULL) 13
                 = Ok (mk_stList 3 9 (Some [11; 12; 13; 0; 0; 0; 0; 0; 0]) NULL))
    by reflexivity.
  split; [exact Hinv|]. split; [exact Hrun|].
  destruct (stList_invariant_preserved (λ _, NULL) (λ _ buf, buf) unit (λ g _ _, (0, g))
              unit (λ _ _, NULL))
    as (_ & _ & _ & _ & _ & _ & _ & _ & H).
  destruct (H _ Hinv) as (Happ & _).
  exact (Happ _ _ Hrun).
Defined.

(** ** Scenarios *)

(** Create empty; append 10, 20, 30; [get(1)] is 20; [remove(0)] returns
    10 and leaves [20; 30]; [pop()] returns 30 and leaves [20]; the length
    is then 1. *)
Example scenario_append_remove_pop :
  (l0 ← stList_construct;
   l3 ← stList_appends (λ _, NULL) l0 [10; 20; 30];
   x1 ← stList_get l3 1;
   '(r0, l2) ← stList_remove l3 0;
   '(r1, l1) ← stList_pop l2;
   Ok (x1, r0, elements l2, r1, elements l1, stList_length (Some l1)))
  = Ok (20, 10, [20; 30], 30, [20], 1).
Proof. reflexivity. Qed.

(** [stList_construct2(3)] has length 3 and holds [NULL] three times. *)
Example scenario_construct2 :
  (l ← stList_construct2 3;
   x0 ← stList_get l 0; x1 ← stList_get l 1; x2 ← stList_get l 2;
   Ok (stList_length (Some l), x0, x1, x2))
  = Ok (3, NULL, NULL, NULL).
Proof. reflexivity. Qed.

(** * Further properties of the code *)

(** ** Construction, reading and writing *)

Lemma stList_get_out_of_range l i :
  ¬ (0 <= i < stList_length (Some l)) → stList_get l i = Abort.
Proof.
  cbn [stList_length]. intros Hi. unfold stList_get, c_assert. cbn [stList_length].
  destruct (Z.geb_spec i 0) as [H0|H0]; [|done].
  cbn [mbind result_bind]. destruct (Z.ltb_spec i (l_length l)) as [H1|H1]; [lia|done].
Qed.

Lemma stList_set_spec l i v :
  wf l → 0 <= i < l_length l →
  ∃ l', stList_set l i v = Ok l'
        ∧ wf l'
        ∧ elements l' = <[Z.to_nat i := v]> (elements l)
        ∧ spare l' = spare l
        ∧ l_length l' = l_length l
        ∧ l_maxLength l' = l_maxLength l
        ∧ l_destructElement l' = l_destructElement l.
Proof.
  intros [(H0 & H1 & H2) (buf & Hb & Hlen)] Hi.
  destruct l as [len cap lst d]; simpl in *. subst lst.
  eexists. rewrite stList_set_at by lia. split; [reflexivity|].
  unfold wf, stList_invariant, elements, spare. simpl. split_and!; try done.
  - eexists. split; [done|]. by rewrite length_insert.
  - apply take_insert_lt. lia.
  - apply drop_insert_lt. lia.
Qed.

(** X1.  [stList_construct3(n, d)] stops at its [assert] for a negative
    [n]; for [n >= 0] it returns a container of length and capacity [n]
    with destructor [d], all of whose [n] elements are [NULL]. *)
Theorem stList_construct3_nulls n d :
  (n < 0 → stList_construct3 n d = Abort)
  ∧ (0 <= n <= INT32_MAX →
     ∃ l, stList_construct3 n d = Ok l
          ∧ wf l
          ∧ stList_length (Some l) = n
          ∧ l_maxLength l = n
          ∧ l_destructElement l = d
          ∧ ∀ i, 0 <= i < n → stList_get l i = Ok NULL).
Proof.
  split.
  - intros Hn. unfold stList_construct3, c_assert. by test_false.
  - intros Hn. exists (fresh_list n d).
    pose proof (fresh_list_wf n d Hn) as Hwf.
    split_and!; try done.
    + apply stList_construct3_eq. lia.
    + intros i Hi. apply stList_get_lookup; [done|done|].
      rewrite fresh_list_elements. apply lookup_replicate_2. lia.
Qed.

Lemma stList_construct3_nulls_witness :
  0 <= 3 <= INT32_MAX
  ∧ ∃ l, stList_construct3 3 7 = Ok l
         ∧ wf l
         ∧ stList_length (Some l) = 3
         ∧ l_maxLength l = 3
         ∧ l_destructElement l = 7
         ∧ ∀ i, 0 <= i < 3 → stList_get l i = Ok NULL.
Proof.
  assert (H : 0 <= 3 <= INT32_MAX) by (unfold INT32_MAX; lia).
  split; [exact H|]. exact (proj2 (stList_construct3_nulls 3 7) H).
Defined.

(** X2.  On a container, [stList_set(i, v)] with [0 <= i < length]
    succeeds; afterwards [stList_get(i)] returns [v], [stList_get(j)]
    returns what it returned before for every other [j], and the length,
    the capacity and the destructor are unchanged. *)
Theorem stList_set_get l i v :
  wf l → 0 <= i < stList_length (Some l) →
  ∃ l', stList_set l i v = Ok l'
        ∧ stList_get l' i = Ok v
        ∧ (∀ j, j ≠ i → stList_get l' j = stList_get l j)
        ∧ stList_length (Some l') = stList_length (Some l)
        ∧ l_maxLength l' = l_maxLength l
        ∧ l_destructElement l' = l_destructElement l.
Proof.
  cbn [stList_length]. intros Hwf Hi.
  destruct (stList_set_spec l i v Hwf Hi) as (l' & Hset & Hwf' & Hel & _ & Hlen & Hcap & Hd).
  destruct (wf_inv l Hwf) as (_ & _ & _ & _ & _ & _ & Hlen_el).
  exists l'. split_and!; try done.
  - apply stList_get_lookup; [done|lia|].
    rewrite Hel. apply list_lookup_insert_eq. lia.
  - intros j Hj. destruct (decide (0 <= j < l_length l)) as [Hin|Hout].
    + destruct (stList_get_elements l j Hwf Hin) as (x & Hx & ->).
      apply stList_get_lookup; [done|lia|].
      rewrite Hel, list_lookup_insert_ne by lia. done.
    + rewrite !stList_get_out_of_range; cbn [stList_length]; [done|done|lia].
Qed.

Lemma stList_set_get_witness :
  wf (mk_stList 3 5 (Some [10; 20; 30; 0; 0]) NULL)
  ∧ 0 <= 1 < stList_length (Some (mk_stList 3 5 (Some [10; 20; 30; 0; 0]) NULL))
  ∧ ∃ l', stList_set (mk_stList 3 5 (Some [10; 20; 30; 0; 0]) NULL) 1 99 = Ok l'
          ∧ stList_get l' 1 = Ok 99
          ∧ (∀ j, j ≠ 1 →
             stList_get l' j = stList_get (mk_stList 3 5 (Some [10; 20; 30; 0; 0]) NULL) j)
          ∧ stList_length (Some l') = 3
          ∧ l_maxLength l' = 5
          ∧ l_destructElement l' = NULL.
Proof.
  assert (Hwf : wf (mk_stList 3 5 (Some [10; 20; 30; 0; 0]) NULL)).
  { split; [unfold stList_invariant, INT32_MAX; simpl; lia|]. by eexists. }
  assert (Hi : 0 <= 1 < stList_length (Some (mk_stList 3 5 (Some [10; 20; 30; 0; 0]) NULL)))
    by (simpl; lia).
  split; [exact Hwf|]. split; [exact Hi|].
  exact (stList_set_get (mk_stList 3 5 (Some [10; 20; 30; 0; 0]) NULL) 1 99 Hwf Hi).
Defined.

(** X3.  For every list struct, whatever its contents, an index outside
    [0 .. length-1] makes [stList_get], [stList_set] and [stList_remove]
    stop at an [assert]: none of them touches the block. *)
Theorem stList_index_out_of_range l i :
  ¬ (0 <= i < stList_length (Some l)) →
  stList_get l i = Abort
  ∧ (∀ v, stList_set l i v = Abort)
  ∧ stList_remove l i = Abort.
Proof.
  intros Hi. split; [by apply stList_get_out_of_range|].
  cbn [stList_length] in Hi.
  split; [intros v; unfold stList_set|unfold stList_remove];
    unfold c_assert; cbn [stList_length];
    (destruct (Z.geb_spec i 0) as [H0|H0]; [|done]);
    cbn [mbind result_bind];
    (destruct (Z.ltb_spec i (l_length l)) as [H1|H1]; [lia|done]).
Qed.

Lemma stList_index_out_of_range_witness :
  ¬ (0 <= 3 < stList_length (Some (mk_stList 3 5 (Some [10; 20; 30; 0; 0]) NULL)))
  ∧ stList_get (mk_stList 3 5 (Some [10; 20; 30; 0; 0]) NULL) 3 = Abort
  ∧ (∀ v, stList_set (mk_stList 3 5 (Some [10; 20; 30; 0; 0]) NULL) 3 v = Abort)
  ∧ stList_remove (mk_stList 3 5 (Some [10; 20; 30; 0; 0]) NULL) 3 = Abort.
Proof.
  assert (Hi : ¬ (0 <= 3 < stList_length (Some (mk_stList 3 5 (Some [10; 20; 30; 0; 0]) NULL))))
    by (simpl; lia).
  split; [exact Hi|].
  exact (stList_index_out_of_range (mk_stList 3 5 (Some [10; 20; 30; 0; 0]) NULL) 3 Hi).
Defined.

(** ** Appending several elements *)

Section AppendAll.

Variable uninit : nat → ptr.

(** A run of appends succeeds when the elements fit the capacity or the
    final length is at most 1073741822: then no full block of more than
    1073741821 slots has to grow. *)
Lemma stList_appends_room vs : ∀ l,
  wf l →
  l_length l + Z.of_nat (length vs) <= Z.max (l_maxLength l) 1073741822 →
  ∃ l', stList_appends uninit l vs = Ok l'
        ∧ wf l'
        ∧ elements l' = elements l ++ vs
        ∧ l_length l' = l_length l + Z.of_nat (length vs)
        ∧ l_maxLength l <= l_maxLength l'
        ∧ l_destructElement l' = l_destructElement l.
Proof.
  induction vs as [|v vs IH]; intros l Hwf Hlen; simpl in *.
  - exists l. rewrite app_nil_r. split_and!; auto; lia.
  - pose proof Hwf as [(H0 & H1 & H2) _].
    destruct (stList_append_spec uninit l v Hwf) as (l1 & -> & Hwf1 & Hel1 & Hlen1 & Hcap1 & Hd1);
      [lia|].
    simpl.
    assert (Hmono : l_maxLength l <= l_maxLength l1).
    { rewrite Hcap1. unfold grown. case_match; lia. }
    destruct (IH l1 Hwf1) as (l' & Hrun & Hwf' & Hel' & Hlen' & Hcap' & Hd'); [lia|].
    exists l'. rewrite Hel', Hel1, <- app_assoc. simpl.
    split_and!; auto; [lia|lia|congruence].
Qed.

(** The loop of [stList_appendAll] over the elements [rest] of the list to
    add, from index [length pre] on. *)
Lemma stList_appendAll_loop rest : ∀ pre tail len cap d to,
  len = Z.of_nat (length pre + length rest) →
  for_loop (length rest) (Z.of_nat (length pre))
    (λ i to,
       toAdd ← deref (Some (mk_stList len cap (Some (pre ++ rest ++ tail)) d));
       x ← stList_get toAdd i;
       stList_append uninit to x)
    to
  = stList_appends uninit to rest.
Proof.
  induction rest as [|r rest IH]; intros pre tail len cap d to Hlen; [done|].
  simpl length in *. cbn [for_loop deref mbind result_bind].
  assert (Hr : (pre ++ (r :: rest) ++ tail) !! Z.to_nat (Z.of_nat (length pre)) = Some r).
  { rewrite Nat2Z.id. by apply list_lookup_middle. }
  rewrite (stList_get_at _ _ _ _ _ r) by (done || lia).
  cbn [mbind result_bind stList_appends].
  specialize (IH (pre ++ [r]) tail len cap d).
  rewrite length_app, <- app_assoc in IH. simpl in IH.
  replace (Z.of_nat (length pre) + 1) with (Z.of_nat (length pre + 1)) by lia.
  destruct (stList_append uninit to r); simpl; [apply IH; lia|done|done].
Qed.

Lemma stList_appendAll_appends to src :
  wf src →
  stList_appendAll uninit to (Some src) = stList_appends uninit to (elements src).
Proof.
  intros [(H0 & H1 & H2) (buf & Hb & Hlen)].
  destruct src as [len cap lst d]; simpl in *. subst lst.
  unfold stList_appendAll. cbn [stList_length l_length]. rewrite elements_mk.
  pose proof (stList_appendAll_loop (take (Z.to_nat len) buf) [] (drop (Z.to_nat len) buf)
                len cap d to) as Hloop.
  simpl in Hloop. change (Z.of_nat 0) with 0 in Hloop.
  rewrite take_drop, length_take in Hloop.
  replace (Z.to_nat len `min` length buf)%nat with (Z.to_nat len) in Hloop by lia.
  apply Hloop. lia.
Qed.

End AppendAll.

(** X4.  [stList_appendAll(to, src)] on two containers, when the elements
    of [src] fit the capacity of [to] or the combined length is at most
    1073741822, succeeds and leaves in [to] its old elements followed by
    the elements of [src] in order, with the destructor of [to] unchanged;
    with a [NULL] list to add it returns [to] as it is. *)
Theorem stList_appendAll_concat uninit to src :
  wf to → wf src →
  l_length to + l_length src <= Z.max (l_maxLength to) 1073741822 →
  (∃ l', stList_appendAll uninit to (Some src) = Ok l'
         ∧ elements l' = elements to ++ elements src
         ∧ stList_length (Some l') = stList_length (Some to) + stList_length (Some src)
         ∧ l_destructElement l' = l_destructElement to)
  ∧ stList_appendAll uninit to None = Ok to.
Proof.
  intros Hto Hsrc Hlen. split; [|done].
  destruct (wf_inv src Hsrc) as (_ & _ & _ & _ & _ & _ & Hlen_el).
  rewrite (stList_appendAll_appends uninit to src Hsrc).
  destruct (stList_appends_room uninit (elements src) to Hto)
    as (l' & Hrun & _ & Hel & Hl & _ & Hd); [lia|].
  exists l'. cbn [stList_length]. split_and!; [done|done|lia|done].
Qed.

Lemma stList_appendAll_concat_witness :
  wf (mk_stList 2 2 (Some [1; 2]) 7)
  ∧ wf (mk_stList 2 3 (Some [3; 4; 0]) NULL)
  ∧ (∃ l', stList_appendAll (λ _, NULL) (mk_stList 2 2 (Some [1; 2]) 7)
             (Some (mk_stList 2 3 (Some [3; 4; 0]) NULL)) = Ok l'
           ∧ elements l' = [1; 2] ++ [3; 4]
           ∧ stList_length (Some l') = 2 + 2
           ∧ l_destructElement l' = 7)
  ∧ stList_appendAll (λ _, NULL) (mk_stList 2 2 (Some [1; 2]) 7) None
    = Ok (mk_stList 2 2 (Some [1; 2]) 7).
Proof.
  assert (Hto : wf (mk_stList 2 2 (Some [1; 2]) 7)).
  { split; [unfold stList_invariant, INT32_MAX; simpl; lia|]. by eexists. }
  assert (Hsrc : wf (mk_stList 2 3 (Some [3; 4; 0]) NULL)).
  { split; [unfold stList_invariant, INT32_MAX; simpl; lia|]. by eexists. }
  split; [exact Hto|]. split; [exact Hsrc|].
  apply (stList_appendAll_concat (λ _, NULL) (mk_stList 2 2 (Some [1; 2]) 7)
           (mk_stList 2 3 (Some [3; 4; 0]) NULL) Hto Hsrc).
  simpl. lia.
Defined.

(** X5.  [stList_copy(list, d)] of a container of at most 1342177275
    elements returns a new container with the same elements in the same
    order and with destructor [d]; of a [NULL] list it returns the empty
    list with destructor [d]. *)
Theorem stList_copy_elements uninit src d :
  wf src → l_length src <= MAX_GROWN_CAPACITY →
  (∃ l', stList_copy uninit (Some src) d = Ok l'
         ∧ wf l'
         ∧ elements l' = elements src
         ∧ stList_length (Some l') = stList_length (Some src)
         ∧ l_destructElement l' = d)
  ∧ stList_copy uninit None d = Ok (mk_stList 0 0 (Some []) d).
Proof.
  intros Hsrc Hlen. split; [|done].
  destruct (wf_inv src Hsrc) as (_ & _ & _ & _ & _ & _ & Hlen_el).
  unfold stList_copy. rewrite stList_construct3_eq by lia. cbn [mbind result_bind].
  rewrite (stList_appendAll_appends uninit _ src Hsrc).
  destruct (stList_appends_spec uninit (elements src) (fresh_list 0 d))
    as (l' & Hrun & Hwf' & _ & Hel & Hl & Hd).
  { apply stList_construct_wf. }
  { apply stList_construct_growing. }
  { simpl. lia. }
  exists l'. cbn [stList_length]. simpl in *. split_and!; [done|done|done|lia|done].
Qed.

Lemma stList_copy_elements_witness :
  wf (mk_stList 2 3 (Some [3; 4; 0]) NULL)
  ∧ (∃ l', stList_copy (λ _, NULL) (Some (mk_stList 2 3 (Some [3; 4; 0]) NULL)) 7 = Ok l'
           ∧ wf l'
           ∧ elements l' = [3; 4]
           ∧ stList_length (Some l') = 2
           ∧ l_destructElement l' = 7)
  ∧ stList_copy (λ _, NULL) None 7 = Ok (mk_stList 0 0 (Some []) 7).
Proof.
  assert (Hsrc : wf (mk_stList 2 3 (Some [3; 4; 0]) NULL)).
  { split; [unfold stList_invariant, INT32_MAX; simpl; lia|]. by eexists. }
  split; [exact Hsrc|].
  apply (stList_copy_elements (λ _, NULL) (mk_stList 2 3 (Some [3; 4; 0]) NULL) 7 Hsrc).
  unfold MAX_GROWN_CAPACITY. simpl. lia.
Defined.

(** ** The end of the list *)

(** X6.  [stList_peek()] on a non-empty container returns the last
    element, the one [stList_get(length - 1)] returns, and being a read
    leaves the list as it is; on an empty container it stops at its
    [assert]. *)
Theorem stList_peek_last l :
  wf l →
  (stList_length (Some l) > 0 →
   ∃ x, stList_peek l = Ok x
        ∧ last (elements l) = Some x
        ∧ stList_get l (stList_length (Some l) - 1) = Ok x)
  ∧ (stList_length (Some l) = 0 → stList_peek l = Abort).
Proof.
  intros Hwf. pose proof Hwf as [(H0 & H1 & H2) _]. cbn [stList_length]. split.
  - intros Hpos.
    destruct (stList_get_elements l (l_length l - 1) Hwf) as (x & Hx & Hget); [lia|].
    destruct (wf_inv l Hwf) as (_ & _ & _ & _ & _ & _ & Hlen_el).
    exists x. split_and!; [|rewrite last_lookup, <- Hx; f_equal; lia|done].
    unfold stList_peek, c_assert. cbn [stList_length]. test_true.
    cbn [mbind result_bind]. by rewrite sub32_id by int32.
  - intros Hz. unfold stList_peek, c_assert. cbn [stList_length]. by test_false.
Qed.

Lemma stList_peek_last_witness :
  wf (mk_stList 2 5 (Some [20; 30; 0; 0; 0]) NULL)
  ∧ (2 > 0 →
     ∃ x, stList_peek (mk_stList 2 5 (Some [20; 30; 0; 0; 0]) NULL) = Ok x
          ∧ last [20; 30] = Some x
          ∧ stList_get (mk_stList 2 5 (Some [20; 30; 0; 0; 0]) NULL) (2 - 1) = Ok x)
  ∧ (2 = 0 → stList_peek (mk_stList 2 5 (Some [20; 30; 0; 0; 0]) NULL) = Abort).
Proof.
  assert (Hwf : wf (mk_stList 2 5 (Some [20; 30; 0; 0; 0]) NULL)).
  { split; [unfold stList_invariant, INT32_MAX; simpl; lia|]. by eexists. }
  split; [exact Hwf|].
  exact (stList_peek_last (mk_stList 2 5 (Some [20; 30; 0; 0; 0]) NULL) Hwf).
Defined.

(** X7.  After [stList_append(v)] on a container that can take one more
    element, [stList_peek()] returns [v], and [stList_pop()] returns [v]
    and leaves the elements and the length the list had before the
    append. *)
Theorem stList_append_peek_pop uninit l v :
  wf l → l_length l < l_maxLength l ∨ l_maxLength l <= 1073741821 →
  ∃ l1 l2, stList_append uninit l v = Ok l1
           ∧ stList_peek l1 = Ok v
           ∧ stList_pop l1 = Ok (v, l2)
           ∧ elements l2 = elements l
           ∧ stList_length (Some l2) = stList_length (Some l).
Proof.
  intros Hwf Hroom. pose proof Hwf as [(H0 & H1 & H2) _].
  destruct (stList_append_spec uninit l v Hwf Hroom) as (l1 & Happ & Hwf1 & Hel1 & Hlen1 & _).
  pose proof Hwf1 as [(H0' & H1' & H2') _].
  destruct (wf_inv l Hwf) as (_ & _ & _ & _ & _ & _ & Hlen_el).
  assert (Hlast : elements l1 !! Z.to_nat (l_length l1 - 1) = Some v).
  { rewrite Hel1, lookup_app_r by lia.
    by replace (Z.to_nat (l_length l1 - 1) - length (elements l))%nat with 0%nat by lia. }
  destruct (stList_remove_spec l1 (l_length l1 - 1) Hwf1)
    as (x & l2 & Hrm & Hx & _ & Hel2 & Hlen2 & _); [lia|].
  assert (x = v) as -> by congruence.
  exists l1, l2. cbn [stList_length]. split_and!; [done| | | |lia].
  - unfold stList_peek, c_assert. cbn [stList_length]. test_true.
    cbn [mbind result_bind]. rewrite sub32_id by int32.
    apply stList_get_lookup; [done|lia|done].
  - unfold stList_pop. cbn [stList_length]. by rewrite sub32_id by int32.
  - rewrite Hel2, Hel1.
    replace (Z.to_nat (l_length l1 - 1)) with (length (elements l)) by lia.
    rewrite (delete_middle (elements l) [] v). by rewrite app_nil_r.
Qed.

Lemma stList_append_peek_pop_witness :
  wf (mk_stList 2 2 (Some [11; 12]) NULL)
  ∧ ∃ l1 l2, stList_append (λ _, NULL) (mk_stList 2 2 (Some [11; 12]) NULL) 13 = Ok l1
             ∧ stList_peek l1 = Ok 13
             ∧ stList_pop l1 = Ok (13, l2)
             ∧ elements l2 = [11; 12]
             ∧ stList_length (Some l2) = 2.
Proof.
  assert (Hwf : wf (mk_stList 2 2 (Some [11; 12]) NULL)).
  { split; [unfold stList_invariant, INT32_MAX; simpl; lia|]. by eexists. }
  split; [exact Hwf|].
  apply (stList_append_peek_pop (λ _, NULL) (mk_stList 2 2 (Some [11; 12]) NULL) 13 Hwf).
  right. simpl. lia.
Defined.

(** ** Searching *)

(** The loop of [stList_contains] over the elements [rest], from index
    [length pre] on. *)
Lemma stList_contains_loop_spec item rest : ∀ pre tail len cap d,
  len = Z.of_nat (length pre + length rest) →
  stList_contains_loop (length rest) (Z.of_nat (length pre))
    (mk_stList len cap (Some (pre ++ rest ++ tail)) d) item
  = Ok (if decide (item ∈ rest) then 1 else 0).
Proof.
  induction rest as [|r rest IH]; intros pre tail len cap d Hlen.
  - cbn [length stList_contains_loop].
    destruct (decide (item ∈ [])) as [Hin|_]; [|done].
    by apply not_elem_of_nil in Hin.
  - simpl length in *. cbn [stList_contains_loop].
    assert (Hr : (pre ++ (r :: rest) ++ tail) !! Z.to_nat (Z.of_nat (length pre)) = Some r).
    { rewrite Nat2Z.id. by apply list_lookup_middle. }
    rewrite (stList_get_at _ _ _ _ _ r) by (done || lia).
    cbn [mbind result_bind].
    destruct (Z.eqb_spec r item) as [->|Hne].
    + destruct (decide (item ∈ item :: rest)) as [_|Hin]; [done|].
      exfalso. apply Hin, list_elem_of_here.
    + specialize (IH (pre ++ [r]) tail len cap d).
      rewrite length_app, <- app_assoc in IH. simpl in IH.
      replace (Z.of_nat (length pre) + 1) with (Z.of_nat (length pre + 1)) by lia.
      rewrite <- app_comm_cons. rewrite IH by lia.
      destruct (decide (item ∈ rest)) as [Hin|Hnin],
               (decide (item ∈ r :: rest)) as [Hin'|Hnin']; try done.
      * exfalso. by apply Hnin', list_elem_of_further.
      * exfalso. apply elem_of_cons in Hin' as [?|?]; [congruence|done].
Qed.

(** X8.  [stList_contains(item)] on a container returns 1 when some live
    element is equal to [item] and 0 otherwise; the spare slots are not
    looked at. *)
Theorem stList_contains_elem_of l item :
  wf l →
  stList_contains l item = Ok (if decide (item ∈ elements l) then 1 else 0).
Proof.
  intros [(H0 & H1 & H2) (buf & Hb & Hlen)].
  destruct l as [len cap lst d]; simpl in *. subst lst.
  unfold stList_contains. cbn [stList_length l_length]. rewrite elements_mk.
  pose proof (stList_contains_loop_spec item (take (Z.to_nat len) buf) []
                (drop (Z.to_nat len) buf) len cap d) as Hloop.
  simpl in Hloop. change (Z.of_nat 0) with 0 in Hloop.
  rewrite take_drop, length_take in Hloop.
  replace (Z.to_nat len `min` length buf)%nat with (Z.to_nat len) in Hloop by lia.
  apply Hloop. lia.
Qed.

Lemma stList_contains_elem_of_witness :
  wf (mk_stList 2 5 (Some [20; 30; 40; 0; 0]) NULL)
  ∧ stList_contains (mk_stList 2 5 (Some [20; 30; 40; 0; 0]) NULL) 30 = Ok 1
  ∧ stList_contains (mk_stList 2 5 (Some [20; 30; 40; 0; 0]) NULL) 40 = Ok 0.
Proof.
  assert (Hwf : wf (mk_stList 2 5 (Some [20; 30; 40; 0; 0]) NULL)).
  { split; [unfold stList_invariant, INT32_MAX; simpl; lia|]. by eexists. }
  split; [exact Hwf|]. split.
  - exact (stList_contains_elem_of (mk_stList 2 5 (Some [20; 30; 40; 0; 0]) NULL) 30 Hwf).
  - exact (stList_contains_elem_of (mk_stList 2 5 (Some [20; 30; 40; 0; 0]) NULL) 40 Hwf).
Defined.

(** The loop of [stList_removeItem] from index [i] on, when no element
    from there on is equal to [item]: the list is returned as it is. *)
Lemma stList_removeItem_loop_absent l item n : ∀ i,
  wf l → 0 <= i → i + Z.of_nat n = l_length l →
  (∀ j, (Z.to_nat i <= j)%nat → elements l !! j ≠ Some item) →
  stList_removeItem_loop n i l item = Ok l.
Proof.
  induction n as [|n IH]; intros i Hwf Hi Hn Habs; [done|].
  cbn [stList_removeItem_loop].
  destruct (stList_get_elements l i Hwf) as (x & Hx & ->); [lia|].
  cbn [mbind result_bind].
  destruct (Z.eqb_spec x item) as [->|Hne].
  - exfalso. by apply (Habs (Z.to_nat i)).
  - apply IH; [done|lia|lia|]. intros j Hj. apply Habs. lia.
Qed.

(** The same loop when the first element equal to [item] from index [i] on
    is at index [k]: the loop ends in [stList_remove(k)]. *)
Lemma stList_removeItem_loop_found l item k n : ∀ i,
  wf l → 0 <= i → i + Z.of_nat n = l_length l →
  (Z.to_nat i <= k)%nat → elements l !! k = Some item →
  (∀ j, (Z.to_nat i <= j < k)%nat → elements l !! j ≠ Some item) →
  stList_removeItem_loop n i l item
  = stList_remove l (Z.of_nat k) ≫= λ '(_, l'), Ok l'.
Proof.
  induction n as [|n IH]; intros i Hwf Hi Hn Hk Hitem Hfirst.
  - apply lookup_lt_Some in Hitem.
    destruct (wf_inv l Hwf) as (_ & _ & _ & _ & _ & _ & Hlen_el). lia.
  - cbn [stList_removeItem_loop].
    destruct (stList_get_elements l i Hwf) as (x & Hx & ->); [lia|].
    cbn [mbind result_bind].
    destruct (decide (k = Z.to_nat i)) as [->|Hne].
    + assert (x = item) as -> by congruence.
      rewrite Z.eqb_refl. by rewrite Z2Nat.id by lia.
    + destruct (Z.eqb_spec x item) as [->|Hxi].
      * exfalso. apply (Hfirst (Z.to_nat i)); [lia|done].
      * apply IH; [done|lia|lia|lia|done|]. intros j Hj. apply Hfirst. lia.
Qed.

(** X9.  [stList_removeItem(item)] on a container in which no element is
    equal to [item] returns the list as it is; otherwise it removes the
    element of lowest index [k] that is equal to [item], and only that
    one: the other elements keep their order, the length goes down by 1,
    the capacity and the destructor stay. *)
Theorem stList_removeItem_first l item :
  wf l →
  (item ∉ elements l → stList_removeItem l item = Ok l)
  ∧ (∀ k, elements l !! k = Some item →
          (∀ j, (j < k)%nat → elements l !! j ≠ Some item) →
          ∃ l', stList_removeItem l item = Ok l'
                ∧ elements l' = delete k (elements l)
                ∧ stList_length (Some l') = stList_length (Some l) - 1
                ∧ l_maxLength l' = l_maxLength l
                ∧ l_destructElement l' = l_destructElement l).
Proof.
  intros Hwf. pose proof Hwf as [(H0 & H1 & H2) _].
  unfold stList_removeItem. cbn [stList_length]. split.
  - intros Habs. apply stList_removeItem_loop_absent; [done|lia|lia|].
    intros j _ Hj. apply Habs. by eapply list_elem_of_lookup_2.
  - intros k Hk Hfirst.
    destruct (wf_inv l Hwf) as (_ & _ & _ & _ & _ & _ & Hlen_el).
    apply lookup_lt_Some in Hk as Hlt.
    rewrite (stList_removeItem_loop_found l item k) by (done || lia || (intros; apply Hfirst; lia)).
    destruct (stList_remove_spec l (Z.of_nat k) Hwf) as (x & l' & -> & _ & _ & Hel & Hlen & Hcap & Hd);
      [lia|].
    exists l'. rewrite Nat2Z.id in Hel. by split_and!.
Qed.

Lemma stList_removeItem_first_witness :
  wf (mk_stList 4 5 (Some [10; 20; 30; 20; 0]) NULL)
  ∧ (50 ∉ [10; 20; 30; 20] →
     stList_removeItem (mk_stList 4 5 (Some [10; 20; 30; 20; 0]) NULL) 50
     = Ok (mk_stList 4 5 (Some [10; 20; 30; 20; 0]) NULL))
  ∧ ∃ l', stList_removeItem (mk_stList 4 5 (Some [10; 20; 30; 20; 0]) NULL) 20 = Ok l'
          ∧ elements l' = [10; 30; 20]
          ∧ stList_length (Some l') = 4 - 1
          ∧ l_maxLength l' = 5
          ∧ l_destructElement l' = NULL.
Proof.
  assert (Hwf : wf (mk_stList 4 5 (Some [10; 20; 30; 20; 0]) NULL)).
  { split; [unfold stList_invariant, INT32_MAX; simpl; lia|]. by eexists. }
  split; [exact Hwf|].
  destruct (stList_removeItem_first (mk_stList 4 5 (Some [10; 20; 30; 20; 0]) NULL) 50 Hwf)
    as [Habs _].
  split; [exact Habs|].
  destruct (stList_removeItem_first (mk_stList 4 5 (Some [10; 20; 30; 20; 0]) NULL) 20 Hwf)
    as [_ Hfound].
  apply (Hfound 1%nat); [reflexivity|].
  intros j Hj. assert (j = 0%nat) as -> by lia. discriminate.
Defined.

(** ** Filtering and joining *)

Section FilterJoin.

Variable uninit : nat → ptr.

(** The loop of [stList_filter] over the elements [rest], from index
    [length pre] on. *)
Lemma stList_filter_loop (fn : ptr → bool) rest : ∀ pre tail len cap d list2,
  len = Z.of_nat (length pre + length rest) →
  for_loop (length rest) (Z.of_nat (length pre))
    (λ i list2,
       o ← stList_get (mk_stList len cap (Some (pre ++ rest ++ tail)) d) i;
       if fn o then stList_append uninit list2 o else Ok list2)
    list2
  = stList_appends uninit list2 (filter (λ o, fn o = true) rest).
Proof.
  induction rest as [|r rest IH]; intros pre tail len cap d list2 Hlen; [done|].
  simpl length in *. cbn [for_loop].
  assert (Hr : (pre ++ (r :: rest) ++ tail) !! Z.to_nat (Z.of_nat (length pre)) = Some r).
  { rewrite Nat2Z.id. by apply list_lookup_middle. }
  rewrite (stList_get_at _ _ _ _ _ r) by (done || lia).
  cbn [mbind result_bind].
  specialize (IH (pre ++ [r]) tail len cap d).
  rewrite length_app, <- app_assoc in IH. simpl in IH.
  replace (Z.of_nat (length pre) + 1) with (Z.of_nat (length pre + 1)) by lia.
  destruct (fn r) eqn:Hfn.
  - rewrite filter_cons_True by done. simpl.
    destruct (stList_append uninit list2 r); simpl; [apply IH; lia|done|done].
  - rewrite filter_cons_False by (by rewrite Hfn). apply IH. lia.
Qed.

Lemma stList_filter_appends l fn :
  wf l →
  stList_filter uninit l fn
  = stList_appends uninit (mk_stList 0 0 (Some []) NULL)
      (filter (λ o, fn o = true) (elements l)).
Proof.
  intros [(H0 & H1 & H2) (buf & Hb & Hlen)].
  destruct l as [len cap lst d]; simpl in *. subst lst.
  unfold stList_filter. rewrite stList_construct_eq.
  cbn [mbind result_bind stList_length l_length]. rewrite elements_mk.
  pose proof (stList_filter_loop fn (take (Z.to_nat len) buf) [] (drop (Z.to_nat len) buf)
                len cap d (mk_stList 0 0 (Some []) NULL)) as Hloop.
  simpl in Hloop. change (Z.of_nat 0) with 0 in Hloop.
  rewrite take_drop, length_take in Hloop.
  replace (Z.to_nat len `min` length buf)%nat with (Z.to_nat len) in Hloop by lia.
  apply Hloop. lia.
Qed.

(** The loop of [stList_join] over the pointers [rest], from index
    [length pre] on, each of them [NULL] or the address of a container. *)
Lemma stList_join_loop (m : gmap Z stList) rest : ∀ pre tail len cap d joinedList,
  len = Z.of_nat (length pre + length rest) →
  (∀ p, p ∈ rest → p = NULL ∨ ∃ s, m !! p = Some s ∧ wf s) →
  for_loop (length rest) (Z.of_nat (length pre))
    (λ i joinedList,
       p ← stList_get (mk_stList len cap (Some (pre ++ rest ++ tail)) d) i;
       toAdd ← load m p;
       stList_appendAll uninit joinedList toAdd)
    joinedList
  = stList_appends uninit joinedList (concat (pointee_elements m <$> rest)).
Proof.
  induction rest as [|r rest IH]; intros pre tail len cap d joinedList Hlen Hptr; [done|].
  simpl length in *. cbn [for_loop].
  assert (Hr : (pre ++ (r :: rest) ++ tail) !! Z.to_nat (Z.of_nat (length pre)) = Some r).
  { rewrite Nat2Z.id. by apply list_lookup_middle. }
  rewrite (stList_get_at _ _ _ _ _ r) by (done || lia).
  cbn [mbind result_bind].
  specialize (IH (pre ++ [r]) tail len cap d).
  rewrite length_app, <- app_assoc in IH. simpl in IH.
  replace (Z.of_nat (length pre) + 1) with (Z.of_nat (length pre + 1)) by lia.
  assert (Hrest : ∀ p, p ∈ rest → p = NULL ∨ ∃ s, m !! p = Some s ∧ wf s).
  { intros p Hp. apply Hptr. by apply list_elem_of_further. }
  rewrite fmap_cons. cbn [concat]. rewrite stList_appends_app.
  unfold load, pointee_elements.
  destruct (Z.eqb_spec r NULL) as [->|Hne].
  - cbn [mbind result_bind]. by apply IH; [lia|].
  - destruct (Hptr r) as [?|(s & Hs & Hwf)]; [apply list_elem_of_here|done|].
    rewrite Hs. cbn [mbind result_bind].
    rewrite (stList_appendAll_appends uninit joinedList s Hwf).
    destruct (stList_appends uninit joinedList (elements s)); simpl; [|done|done].
    by apply IH; [lia|].
Qed.

End FilterJoin.

(** X10.  [stList_filter(list, fn)] on a container of which at most
    1342177275 elements satisfy [fn] returns a new container, without
    destructor, that holds exactly the elements for which [fn] is true, in
    the order of the source; its length is the number of such elements. *)
Theorem stList_filter_elements uninit l (fn : ptr → bool) :
  wf l →
  Z.of_nat (length (filter (λ o, fn o = true) (elements l))) <= MAX_GROWN_CAPACITY →
  ∃ l', stList_filter uninit l fn = Ok l'
        ∧ wf l'
        ∧ elements l' = filter (λ o, fn o = true) (elements l)
        ∧ stList_length (Some l')
          = Z.of_nat (length (filter (λ o, fn o = true) (elements l)))
        ∧ l_destructElement l' = NULL
        ∧ (∀ o, o ∈ elements l' → fn o = true)
        ∧ elements l' `sublist_of` elements l.
Proof.
  intros Hwf Hlen. rewrite (stList_filter_appends uninit l fn Hwf).
  destruct (stList_appends_spec uninit (filter (λ o, fn o = true) (elements l))
              (mk_stList 0 0 (Some []) NULL))
    as (l' & Hrun & Hwf' & _ & Hel & Hl & Hd).
  { apply stList_construct_wf. }
  { apply stList_construct_growing. }
  { simpl. lia. }
  simpl in Hel, Hl, Hd. exists l'. cbn [stList_length]. split_and!; try done.
  - intros o Ho. rewrite Hel in Ho. by apply list_elem_of_filter in Ho as [? _].
  - rewrite Hel. apply sublist_filter.
Qed.

Lemma stList_filter_elements_witness :
  wf (mk_stList 4 5 (Some [1; 2; 3; 4; 0]) 7)
  ∧ ∃ l', stList_filter (λ _, NULL) (mk_stList 4 5 (Some [1; 2; 3; 4; 0]) 7) Z.even = Ok l'
          ∧ wf l'
          ∧ elements l'
            = filter (λ o, Z.even o = true) (elements (mk_stList 4 5 (Some [1; 2; 3; 4; 0]) 7))
          ∧ stList_length (Some l')
            = Z.of_nat (length (filter (λ o, Z.even o = true)
                                  (elements (mk_stList 4 5 (Some [1; 2; 3; 4; 0]) 7))))
          ∧ l_destructElement l' = NULL
          ∧ (∀ o, o ∈ elements l' → Z.even o = true)
          ∧ elements l' `sublist_of` elements (mk_stList 4 5 (Some [1; 2; 3; 4; 0]) 7).
Proof.
  assert (Hwf : wf (mk_stList 4 5 (Some [1; 2; 3; 4; 0]) 7)).
  { split; [unfold stList_invariant, INT32_MAX; simpl; lia|]. by eexists. }
  split; [exact Hwf|].
  apply (stList_filter_elements (λ _, NULL) (mk_stList 4 5 (Some [1; 2; 3; 4; 0]) 7) Z.even Hwf).
  vm_compute. discriminate.
Defined.

(** X11.  [stList_join(listOfLists)] on a container whose elements are
    each [NULL] or the address of a container, the elements of all of them
    together numbering at most 1342177275, returns a new container
    without destructor that holds the elements of the first list, then
    those of the second, and so on; a [NULL] element contributes
    nothing. *)
Theorem stList_join_concat uninit (m : gmap Z stList) listOfLists :
  wf listOfLists →
  (∀ p, p ∈ elements listOfLists → p = NULL ∨ ∃ s, m !! p = Some s ∧ wf s) →
  Z.of_nat (length (concat (pointee_elements m <$> elements listOfLists)))
    <= MAX_GROWN_CAPACITY →
  ∃ l', stList_join uninit m listOfLists = Ok l'
        ∧ wf l'
        ∧ elements l' = concat (pointee_elements m <$> elements listOfLists)
        ∧ l_destructElement l' = NULL.
Proof.
  intros Hwf Hptr Hlen.
  assert (Hjoin : stList_join uninit m listOfLists
                  = stList_appends uninit (mk_stList 0 0 (Some []) NULL)
                      (concat (pointee_elements m <$> elements listOfLists))).
  { destruct Hwf as [(H0 & H1 & H2) (buf & Hb & Hblen)].
    destruct listOfLists as [len cap lst d]; simpl in *. subst lst.
    unfold stList_join. rewrite stList_construct_eq.
    cbn [mbind result_bind stList_length l_length].
    rewrite elements_mk in *.
    pose proof (stList_join_loop uninit m (take (Z.to_nat len) buf) []
                  (drop (Z.to_nat len) buf) len cap d (mk_stList 0 0 (Some []) NULL)) as Hloop.
    simpl in Hloop. change (Z.of_nat 0) with 0 in Hloop.
    rewrite take_drop, length_take in Hloop.
    replace (Z.to_nat len `min` length buf)%nat with (Z.to_nat len) in Hloop by lia.
    apply Hloop; [lia|done]. }
  rewrite Hjoin.
  destruct (stList_appends_spec uninit (concat (pointee_elements m <$> elements listOfLists))
              (mk_stList 0 0 (Some []) NULL))
    as (l' & Hrun & Hwf' & _ & Hel & _ & Hd).
  { apply stList_construct_wf. }
  { apply stList_construct_growing. }
  { simpl. lia. }
  exists l'. by split_and!.
Qed.

Lemma stList_join_concat_witness :
  wf (mk_stList 3 3 (Some [100; NULL; 200]) NULL)
  ∧ ∃ l', stList_join (λ _, NULL)
            (<[100 := mk_stList 2 2 (Some [1; 2]) NULL]>
               {[ 200 := mk_stList 1 4 (Some [3; 0; 0; 0]) NULL ]})
            (mk_stList 3 3 (Some [100; NULL; 200]) NULL) = Ok l'
          ∧ wf l'
          ∧ elements l'
            = concat (pointee_elements
                        (<[100 := mk_stList 2 2 (Some [1; 2]) NULL]>
                           {[ 200 := mk_stList 1 4 (Some [3; 0; 0; 0]) NULL ]})
                      <$> elements (mk_stList 3 3 (Some [100; NULL; 200]) NULL))
          ∧ l_destructElement l' = NULL.
Proof.
  assert (Hwf : wf (mk_stList 3 3 (Some [100; NULL; 200]) NULL)).
  { split; [unfold stList_invariant, INT32_MAX; simpl; lia|]. by eexists. }
  split; [exact Hwf|].
  apply (stList_join_concat (λ _, NULL)
           (<[100 := mk_stList 2 2 (Some [1; 2]) NULL]>
              {[ 200 := mk_stList 1 4 (Some [3; 0; 0; 0]) NULL ]})
           (mk_stList 3 3 (Some [100; NULL; 200]) NULL) Hwf).
  - intros p Hp. change (p ∈ [100; NULL; 200]) in Hp.
    apply elem_of_cons in Hp as [->|Hp].
    { right. eexists. split; [apply lookup_insert_eq|].
      split; [unfold stList_invariant, INT32_MAX; simpl; lia|]. by eexists. }
    apply elem_of_cons in Hp as [->|Hp]; [by left|].
    apply list_elem_of_singleton in Hp as ->.
    right. eexists. split; [rewrite lookup_insert_ne by done; apply lookup_singleton_eq|].
    split; [unfold stList_invariant, INT32_MAX; simpl; lia|]. by eexists.
  - vm_compute. discriminate.
Defined.

(** ** Shuffling *)

(** A loop each pass of which succeeds and keeps a property succeeds and
    keeps it. *)
Lemma for_loop_ok {S} (P : S → Prop) (body : Z → S → result S) n : ∀ i s,
  (∀ k s, i <= k < i + Z.of_nat n → P s → ∃ s', body k s = Ok s' ∧ P s') →
  P s → ∃ s', for_loop n i body s = Ok s' ∧ P s'.
Proof.
  induction n as [|n IH]; intros i s Hbody Hs.
  - by exists s.
  - cbn [for_loop]. destruct (Hbody i s) as (s1 & -> & Hs1); [lia|done|].
    cbn [mbind result_bind]. apply IH; [|done].
    intros k s2 Hk. apply Hbody. lia.
Qed.

(** Exchanging the contents of two positions of a list permutes it. *)
Lemma insert_head_Permutation {A} (l : list A) j a b :
  l !! j = Some b → b :: <[j := a]> l ≡ₚ a :: l.
Proof.
  revert j. induction l as [|y l IH]; intros [|j] Hj; simplify_eq/=.
  - apply Permutation_swap.
  - rewrite Permutation_swap. rewrite (IH j Hj). apply Permutation_swap.
Qed.

Lemma insert_swap_Permutation {A} (l : list A) i j a b :
  l !! i = Some a → l !! j = Some b → <[j := a]> (<[i := b]> l) ≡ₚ l.
Proof.
  revert i j. induction l as [|y l IH]; intros [|i] [|j] Hi Hj; simplify_eq/=.
  - done.
  - by apply insert_head_Permutation.
  - by apply insert_head_Permutation.
  - f_equiv. by apply IH.
Qed.

Section Shuffle.

Variable rng : Type.
Variable st_randomInt : rng → Z → Z → Z * rng.

(** One pass of the loop of [stList_shuffle], the drawn index in range. *)
Lemma stList_shuffle_body l i j :
  wf l → 0 <= i < l_length l → 0 <= j < l_length l →
  ∃ l', (o ← stList_get l i;
         x ← stList_get l j;
         l1 ← stList_set l i x;
         stList_set l1 j o) = Ok l'
        ∧ wf l'
        ∧ elements l' ≡ₚ elements l
        ∧ spare l' = spare l
        ∧ l_length l' = l_length l
        ∧ l_maxLength l' = l_maxLength l
        ∧ l_destructElement l' = l_destructElement l.
Proof.
  intros Hwf Hi Hj.
  destruct (stList_get_elements l i Hwf Hi) as (a & Ha & ->).
  destruct (stList_get_elements l j Hwf Hj) as (b & Hb & ->).
  cbn [mbind result_bind].
  destruct (stList_set_spec l i b Hwf Hi) as (l1 & -> & Hwf1 & Hel1 & Hsp1 & Hlen1 & Hcap1 & Hd1).
  cbn [mbind result_bind].
  destruct (stList_set_spec l1 j a Hwf1) as (l2 & -> & Hwf2 & Hel2 & Hsp2 & Hlen2 & Hcap2 & Hd2);
    [lia|].
  exists l2. split_and!; try done; try congruence.
  rewrite Hel2, Hel1. by apply insert_swap_Permutation.
Qed.

End Shuffle.

(** X12.  When every draw of [st_randomInt(0, n)] falls in [0 .. n-1],
    [stList_shuffle] on a container succeeds and leaves a permutation of
    the elements: no element is lost or duplicated, and the length, the
    capacity, the destructor and the spare slots are unchanged. *)
Theorem stList_shuffle_permutation (rng : Type) (st_randomInt : rng → Z → Z → Z * rng) l g :
  wf l →
  (∀ g n, 0 < n → 0 <= (st_randomInt g 0 n).1 < n) →
  ∃ l' g', stList_shuffle rng st_randomInt l g = Ok (l', g')
           ∧ elements l' ≡ₚ elements l
           ∧ stList_length (Some l') = stList_length (Some l)
           ∧ l_maxLength l' = l_maxLength l
           ∧ l_destructElement l' = l_destructElement l
           ∧ spare l' = spare l.
Proof.
  intros Hwf Hrand. unfold stList_shuffle. cbn [stList_length].
  destruct (for_loop_ok
              (λ s : stList * rng,
                 wf s.1 ∧ elements s.1 ≡ₚ elements l ∧ spare s.1 = spare l
                 ∧ l_length s.1 = l_length l ∧ l_maxLength s.1 = l_maxLength l
                 ∧ l_destructElement s.1 = l_destructElement l)
              (λ i '(l0, g0),
                 let '(j, g') := st_randomInt g0 0 (stList_length (Some l0)) in
                 o ← stList_get l0 i;
                 x ← stList_get l0 j;
                 l1 ← stList_set l0 i x;
                 l2 ← stList_set l1 j o;
                 Ok (l2, g'))
              (Z.to_nat (l_length l)) 0 (l, g))
    as ([l' g'] & Hrun & _ & Hperm & Hsp & Hlen & Hcap & Hd).
  - intros k [l0 g0] Hk (Hwf0 & Hperm0 & Hsp0 & Hlen0 & Hcap0 & Hd0). simpl in *.
    pose proof Hwf as [(H0 & _) _].
    specialize (Hrand g0 (l_length l0)).
    destruct (st_randomInt g0 0 (l_length l0)) as [j g1]. simpl in Hrand.
    destruct (stList_shuffle_body l0 k j Hwf0) as (l2 & Hbody & Hwf2 & Hperm2 & Hsp2 & Hlen2 & Hcap2 & Hd2);
      [lia|lia|].
    exists (l2, g1). simpl. split.
    + do 3 bind_inv Hbody. rewrite E, E0. cbn [mbind result_bind].
      rewrite E1. cbn [mbind result_bind]. by rewrite Hbody.
    + split_and!; try done; try congruence. by rewrite Hperm2.
  - simpl. by split_and!.
  - exists l', g'. simpl in *. by split_and!.
Qed.

Lemma stList_shuffle_permutation_witness :
  wf (mk_stList 3 5 (Some [10; 20; 30; 0; 0]) NULL)
  ∧ (∀ (g : Z) n, 0 < n → 0 <= ((g + 1) mod n, g + 1).1 < n)
  ∧ ∃ l' g', stList_shuffle Z (λ g _ n, ((g + 1) mod n, g + 1))
               (mk_stList 3 5 (Some [10; 20; 30; 0; 0]) NULL) 0 = Ok (l', g')
             ∧ elements l' ≡ₚ elements (mk_stList 3 5 (Some [10; 20; 30; 0; 0]) NULL)
             ∧ stList_length (Some l') = 3
             ∧ l_maxLength l' = 5
             ∧ l_destructElement l' = NULL
             ∧ spare l' = spare (mk_stList 3 5 (Some [10; 20; 30; 0; 0]) NULL).
Proof.
  assert (Hwf : wf (mk_stList 3 5 (Some [10; 20; 30; 0; 0]) NULL)).
  { split; [unfold stList_invariant, INT32_MAX; simpl; lia|]. by eexists. }
  assert (Hrand : ∀ (g : Z) n, 0 < n → 0 <= ((g + 1) mod n, g + 1).1 < n).
  { intros g n Hn. simpl. apply Z.mod_pos_bound. lia. }
  split; [exact Hwf|]. split; [exact Hrand|].
  exact (stList_shuffle_permutation Z (λ g _ n, ((g + 1) mod n, g + 1))
           (mk_stList 3 5 (Some [10; 20; 30; 0; 0]) NULL) 0 Hwf Hrand).
Defined.

(** ** More on the iterator *)

(** [n] calls of [stList_getNext] that stay within the list return the
    [n] elements from the cursor on. *)
Lemma stList_getNext_list_spec (m : gmap Z stList) p l n : ∀ i,
  p ≠ NULL → m !! p = Some l → wf l → 0 <= i → i + Z.of_nat n <= l_length l →
  stList_getNext_list m n (mk_stListIterator p i)
  = Ok (take n (drop (Z.to_nat i) (elements l)), mk_stListIterator p (i + Z.of_nat n)).
Proof.
  induction n as [|n IH]; intros i Hp Hl Hwf Hi Hn.
  - simpl. do 3 f_equal. lia.
  - cbn [stList_getNext_list].
    destruct (stList_getNext_step m p i l Hp Hl Hwf) as (x & Hx & ->); [lia|].
    cbn [mbind result_bind]. rewrite IH by (done || lia). cbn [mbind result_bind].
    rewrite (drop_S _ x _ Hx). cbn [take].
    replace (Z.to_nat (i + 1)) with (S (Z.to_nat i)) by lia.
    do 3 f_equal. lia.
Qed.

(** X13.  On a container, with the cursor within the list, the two steps
    of the iterator undo each other: [stList_getNext] followed by
    [stList_getPrevious] returns the same element twice and puts the
    cursor back, and so does [stList_getPrevious] followed by
    [stList_getNext]. *)
Theorem stList_iterator_inverse (m : gmap Z stList) p l i :
  p ≠ NULL → m !! p = Some l → wf l →
  (0 <= i < stList_length (Some l) →
   ∃ x it, stList_getNext m (mk_stListIterator p i) = Ok (x, it)
           ∧ stList_getPrevious m it = Ok (x, mk_stListIterator p i))
  ∧ (0 < i <= stList_length (Some l) →
     ∃ x it, stList_getPrevious m (mk_stListIterator p i) = Ok (x, it)
             ∧ stList_getNext m it = Ok (x, mk_stListIterator p i)).
Proof.
  cbn [stList_length]. intros Hp Hl Hwf. split; intros Hi.
  - destruct (stList_getNext_step m p i l Hp Hl Hwf Hi) as (x & Hx & Hnext).
    destruct (stList_getPrevious_step m p (i + 1) l Hp Hl Hwf) as (y & Hy & Hprev); [lia|].
    replace (i + 1 - 1) with i in * by lia.
    exists x, (mk_stListIterator p (i + 1)). split; [done|]. congruence.
  - destruct (stList_getPrevious_step m p i l Hp Hl Hwf Hi) as (x & Hx & Hprev).
    destruct (stList_getNext_step m p (i - 1) l Hp Hl Hwf) as (y & Hy & Hnext); [lia|].
    replace (i - 1 + 1) with i in * by lia.
    exists x, (mk_stListIterator p (i - 1)). split; [done|]. congruence.
Qed.

Lemma stList_iterator_inverse_witness :
  ({[ 100 := mk_stList 3 5 (Some [10; 20; 30; 0; 0]) NULL ]} : gmap Z stList) !! 100
    = Some (mk_stList 3 5 (Some [10; 20; 30; 0; 0]) NULL)
  ∧ wf (mk_stList 3 5 (Some [10; 20; 30; 0; 0]) NULL)
  ∧ (∃ x it,
       stList_getNext {[ 100 := mk_stList 3 5 (Some [10; 20; 30; 0; 0]) NULL ]}
         (mk_stListIterator 100 1) = Ok (x, it)
       ∧ stList_getPrevious {[ 100 := mk_stList 3 5 (Some [10; 20; 30; 0; 0]) NULL ]} it
         = Ok (x, mk_stListIterator 100 1))
  ∧ (∃ x it,
       stList_getPrevious {[ 100 := mk_stList 3 5 (Some [10; 20; 30; 0; 0]) NULL ]}
         (mk_stListIterator 100 1) = Ok (x, it)
       ∧ stList_getNext {[ 100 := mk_stList 3 5 (Some [10; 20; 30; 0; 0]) NULL ]} it
         = Ok (x, mk_stListIterator 100 1)).
Proof.
  assert (Hl : ({[ 100 := mk_stList 3 5 (Some [10; 20; 30; 0; 0]) NULL ]} : gmap Z stList) !! 100
               = Some (mk_stList 3 5 (Some [10; 20; 30; 0; 0]) NULL))
    by apply lookup_singleton_eq.
  assert (Hwf : wf (mk_stList 3 5 (Some [10; 20; 30; 0; 0]) NULL)).
  { split; [unfold stList_invariant, INT32_MAX; simpl; lia|]. by eexists. }
  assert (Hp : 100 ≠ NULL) by done.
  split; [exact Hl|]. split; [exact Hwf|].
  destruct (stList_iterator_inverse _ 100 _ 1 Hp Hl Hwf) as [Hfwd Hbwd].
  split; [apply Hfwd|apply Hbwd]; simpl; lia.
Defined.

(** X14.  On a container of [n] elements, [n] calls of [stList_getNext]
    on a new iterator return the elements in index order, each once, and
    leave the cursor at [n]; the call after them returns [NULL]. *)
Theorem stList_iterator_traversal (m : gmap Z stList) p l :
  p ≠ NULL → m !! p = Some l → wf l →
  stList_getNext_list m (Z.to_nat (stList_length (Some l))) (stList_getIterator p)
  = Ok (elements l, mk_stListIterator p (stList_length (Some l)))
  ∧ stList_getNext m (mk_stListIterator p (stList_length (Some l)))
    = Ok (NULL, mk_stListIterator p (stList_length (Some l))).
Proof.
  cbn [stList_length]. intros Hp Hl Hwf. pose proof Hwf as [(H0 & H1 & H2) _].
  destruct (wf_inv l Hwf) as (_ & _ & _ & _ & _ & _ & Hlen_el). split.
  - unfold stList_getIterator.
    rewrite (stList_getNext_list_spec m p l _ 0 Hp Hl Hwf) by lia.
    change (Z.to_nat 0) with 0%nat. rewrite drop_0, take_ge by lia.
    do 3 f_equal. lia.
  - apply (stList_getNext_end m p _ l). right. split; [done|lia].
Qed.

Lemma stList_iterator_traversal_witness :
  stList_getNext_list {[ 100 := mk_stList 3 5 (Some [10; 20; 30; 0; 0]) NULL ]} 3
    (stList_getIterator 100)
  = Ok ([10; 20; 30], mk_stListIterator 100 3)
  ∧ stList_getNext {[ 100 := mk_stList 3 5 (Some [10; 20; 30; 0; 0]) NULL ]}
      (mk_stListIterator 100 3)
    = Ok (NULL, mk_stListIterator 100 3).
Proof.
  apply (stList_iterator_traversal
           {[ 100 := mk_stList 3 5 (Some [10; 20; 30; 0; 0]) NULL ]} 100
           (mk_stList 3 5 (Some [10; 20; 30; 0; 0]) NULL)).
  - done.
  - apply lookup_singleton_eq.
  - split; [unfold stList_invariant, INT32_MAX; simpl; lia|]. by eexists.
Defined.

(** X15.  An iterator whose cursor is past the end of its list, as it is
    after the list has lost elements, gets [NULL] from [stList_getNext]
    with the cursor unmoved, but [stList_getPrevious] stops at the
    [assert] of [stList_get]: it does not step back to the last
    element. *)
Theorem stList_iterator_stale (m : gmap Z stList) p l i :
  p ≠ NULL → m !! p = Some l →
  stList_length (Some l) < i → 0 < i <= INT32_MAX →
  stList_getNext m (mk_stListIterator p i) = Ok (NULL, mk_stListIterator p i)
  ∧ stList_getPrevious m (mk_stListIterator p i) = Abort.
Proof.
  cbn [stList_length]. intros Hp Hl Hlen Hi. split.
  - apply (stList_getNext_end m p i l). right. split; [done|lia].
  - unfold stList_getPrevious. simpl.
    destruct (Z.eqb_spec p NULL) as [|_]; [done|].
    destruct (Z.eqb_spec i 0) as [|_]; [lia|]. simpl. rewrite Hl. simpl.
    rewrite sub32_id by int32.
    rewrite stList_get_out_of_range; [done|]. cbn [stList_length]. lia.
Qed.

Lemma stList_iterator_stale_witness :
  stList_getNext {[ 100 := mk_stList 1 5 (Some [10; 20; 30; 0; 0]) NULL ]}
    (mk_stListIterator 100 3)
  = Ok (NULL, mk_stListIterator 100 3)
  ∧ stList_getPrevious {[ 100 := mk_stList 1 5 (Some [10; 20; 30; 0; 0]) NULL ]}
      (mk_stListIterator 100 3)
    = Abort.
Proof.
  apply (stList_iterator_stale {[ 100 := mk_stList 1 5 (Some [10; 20; 30; 0; 0]) NULL ]} 100
           (mk_stList 1 5 (Some [10; 20; 30; 0; 0]) NULL) 3).
  - done.
  - apply lookup_singleton_eq.
  - simpl. lia.
  - unfold INT32_MAX. lia.
Defined.

(** X16.  The iterator reads its list anew at each call: an iterator at
    the end of a container gets [NULL] from [stList_getNext], and once an
    element [v] has been appended to the list in place, the same iterator
    gets [v] and moves on. *)
Theorem stList_iterator_sees_append uninit (m : gmap Z stList) p l v :
  p ≠ NULL → m !! p = Some l → wf l →
  l_length l < l_maxLength l ∨ l_maxLength l <= 1073741821 →
  ∃ l', stList_append uninit l v = Ok l'
        ∧ stList_getNext m (mk_stListIterator p (stList_length (Some l)))
          = Ok (NULL, mk_stListIterator p (stList_length (Some l)))
        ∧ stList_getNext (<[p := l']> m) (mk_stListIterator p (stList_length (Some l)))
          = Ok (v, mk_stListIterator p (stList_length (Some l) + 1)).
Proof.
  cbn [stList_length]. intros Hp Hl Hwf Hroom. pose proof Hwf as [(H0 & H1 & H2) _].
  destruct (stList_append_spec uninit l v Hwf Hroom) as (l' & Happ & Hwf' & Hel & Hlen & _).
  destruct (wf_inv l Hwf) as (_ & _ & _ & _ & _ & _ & Hlen_el).
  exists l'. split_and!; [done| |].
  - apply (stList_getNext_end m p _ l). right. split; [done|lia].
  - destruct (stList_getNext_step (<[p := l']> m) p (l_length l) l' Hp) as (x & Hx & ->);
      [apply lookup_insert_eq|done|lia|].
    rewrite Hel, lookup_app_r in Hx by lia.
    replace (Z.to_nat (l_length l) - length (elements l))%nat with 0%nat in Hx by lia.
    by injection Hx as ->.
Qed.

Lemma stList_iterator_sees_append_witness :
  wf (mk_stList 2 2 (Some [11; 12]) NULL)
  ∧ ∃ l', stList_append (λ _, NULL) (mk_stList 2 2 (Some [11; 12]) NULL) 13 = Ok l'
          ∧ stList_getNext {[ 100 := mk_stList 2 2 (Some [11; 12]) NULL ]}
              (mk_stListIterator 100 2)
            = Ok (NULL, mk_stListIterator 100 2)
          ∧ stList_getNext (<[100 := l']> {[ 100 := mk_stList 2 2 (Some [11; 12]) NULL ]})
              (mk_stListIterator 100 2)
            = Ok (13, mk_stListIterator 100 (2 + 1)).
Proof.
  assert (Hwf : wf (mk_stList 2 2 (Some [11; 12]) NULL)).
  { split; [unfold stList_invariant, INT32_MAX; simpl; lia|]. by eexists. }
  split; [exact Hwf|].
  apply (stList_iterator_sees_append (λ _, NULL)
           {[ 100 := mk_stList 2 2 (Some [11; 12]) NULL ]} 100
           (mk_stList 2 2 (Some [11; 12]) NULL) 13).
  - done.
  - apply lookup_singleton_eq.
  - exact Hwf.
  - right. simpl. lia.
Defined.

(** ** Ownership of the elements *)

Lemma stList_setDestructor_wf l d : wf l → wf (stList_setDestructor l d).
Proof. intros [Hinv Hbuf]. split; done. Qed.

(** X17.  [stList_setDestructor(list, d)] decides what the teardown
    calls: [stList_destruct] afterwards calls [d], and not the destructor
    the list had, on each live element that is not [NULL], in index order;
    when [d] is [NULL] it calls nothing and only frees the block and the
    list. *)
Theorem stList_setDestructor_destruct l d :
  wf l →
  stList_destruct (Some (stList_setDestructor l d))
  = Ok ((if d =? NULL then [] else Call d <$> filter (λ x, x ≠ NULL) (elements l))
          ++ [FreeBuffer; FreeList]).
Proof.
  intros Hwf. pose proof (stList_setDestructor_wf l d Hwf) as Hwf'.
  unfold stList_destruct.
  rewrite (destructElements_spec _ Hwf').
  destruct Hwf as [_ (buf & Hb & _)].
  unfold stList_setDestructor, elements. simpl. rewrite Hb.
  by destruct (d =? NULL).
Qed.

Lemma stList_setDestructor_destruct_witness :
  wf (mk_stList 3 5 (Some [7; 0; 9; 0; 0]) 1)
  ∧ stList_destruct (Some (stList_setDestructor (mk_stList 3 5 (Some [7; 0; 9; 0; 0]) 1) 2))
    = Ok [Call 2 7; Call 2 9; FreeBuffer; FreeList]
  ∧ stList_destruct (Some (stList_setDestructor (mk_stList 3 5 (Some [7; 0; 9; 0; 0]) 1) NULL))
    = Ok [FreeBuffer; FreeList].
Proof.
  assert (Hwf : wf (mk_stList 3 5 (Some [7; 0; 9; 0; 0]) 1)).
  { split; [unfold stList_invariant, INT32_MAX; simpl; lia|]. by eexists. }
  split; [exact Hwf|]. split.
  - exact (stList_setDestructor_destruct (mk_stList 3 5 (Some [7; 0; 9; 0; 0]) 1) 2 Hwf).
  - exact (stList_setDestructor_destruct (mk_stList 3 5 (Some [7; 0; 9; 0; 0]) 1) NULL Hwf).
Defined.

Section SortedSet.

Variable stSortedSet : Type.
Variable stSortedSet_construct3 : option (ptr → ptr → Z) → ptr → stSortedSet.
Variable stSortedSet_insert : stSortedSet → ptr → stSortedSet.

(** The loop of [stList_getSortedSet] over the elements [rest], from
    index [length pre] on. *)
Lemma stList_getSortedSet_loop rest : ∀ pre tail len cap d sortedSet,
  len = Z.of_nat (length pre + length rest) →
  for_loop (length rest) (Z.of_nat (length pre))
    (λ i sortedSet,
       x ← stList_get (mk_stList len cap (Some (pre ++ rest ++ tail)) d) i;
       Ok (stSortedSet_insert sortedSet x))
    sortedSet
  = Ok (foldl stSortedSet_insert sortedSet rest).
Proof.
  induction rest as [|r rest IH]; intros pre tail len cap d sortedSet Hlen; [done|].
  simpl length in *. cbn [for_loop].
  assert (Hr : (pre ++ (r :: rest) ++ tail) !! Z.to_nat (Z.of_nat (length pre)) = Some r).
  { rewrite Nat2Z.id. by apply list_lookup_middle. }
  rewrite (stList_get_at _ _ _ _ _ r) by (done || lia).
  cbn [mbind result_bind].
  specialize (IH (pre ++ [r]) tail len cap d).
  rewrite length_app, <- app_assoc in IH. simpl in IH.
  replace (Z.of_nat (length pre) + 1) with (Z.of_nat (length pre + 1)) by lia.
  rewrite <- app_comm_cons. by rewrite IH by lia.
Qed.

Lemma stList_getSortedSet_spec l cmpFn :
  wf l →
  stList_getSortedSet stSortedSet stSortedSet_construct3 stSortedSet_insert l cmpFn
  = Ok (foldl stSortedSet_insert (stSortedSet_construct3 cmpFn NULL) (elements l)).
Proof.
  intros [(H0 & H1 & H2) (buf & Hb & Hlen)].
  destruct l as [len cap lst d]; simpl in *. subst lst.
  unfold stList_getSortedSet. cbn [stList_length l_length]. rewrite elements_mk.
  pose proof (stList_getSortedSet_loop (take (Z.to_nat len) buf) []
                (drop (Z.to_nat len) buf) len cap d (stSortedSet_construct3 cmpFn NULL))
    as Hloop.
  simpl in Hloop. change (Z.of_nat 0) with 0 in Hloop.
  rewrite take_drop, length_take in Hloop.
  replace (Z.to_nat len `min` length buf)%nat with (Z.to_nat len) in Hloop by lia.
  apply Hloop. lia.
Qed.

End SortedSet.

(** X18.  [stList_getSortedSet(list, cmpFn)] on a container makes a set
    with comparison function [cmpFn] and no destructor and inserts the
    live elements, each once, in index order.
    [stList_convertToSortedSet(list)] makes that set with no comparison
    function, hands it the destructor of the list, and tears the list
    down without a single destructor call, whatever the destructor and
    the elements: only the block and the list are freed. *)
Theorem stList_convertToSortedSet_transfer (stSortedSet : Type)
    (stSortedSet_construct3 : option (ptr → ptr → Z) → ptr → stSortedSet)
    (stSortedSet_insert : stSortedSet → ptr → stSortedSet)
    (stSortedSet_setDestructor : stSortedSet → ptr → stSortedSet) l :
  wf l →
  (∀ cmpFn,
     stList_getSortedSet stSortedSet stSortedSet_construct3 stSortedSet_insert l cmpFn
     = Ok (foldl stSortedSet_insert (stSortedSet_construct3 cmpFn NULL) (elements l)))
  ∧ stList_convertToSortedSet stSortedSet stSortedSet_construct3 stSortedSet_insert
      stSortedSet_setDestructor l
    = Ok (stSortedSet_setDestructor
            (foldl stSortedSet_insert (stSortedSet_construct3 None NULL) (elements l))
            (l_destructElement l),
          [FreeBuffer; FreeList]).
Proof.
  intros Hwf. split.
  - intros cmpFn. by apply stList_getSortedSet_spec.
  - unfold stList_convertToSortedSet.
    rewrite (stList_getSortedSet_spec _ _ _ l None Hwf). cbn [mbind result_bind].
    destruct Hwf as [_ (buf & Hb & _)].
    unfold stList_destruct, stList_setDestructor. simpl. by rewrite Hb.
Qed.

Lemma stList_convertToSortedSet_transfer_witness :
  wf (mk_stList 3 5 (Some [7; 0; 9; 0; 0]) 1)
  ∧ (∀ cmpFn,
       stList_getSortedSet (list ptr * ptr) (λ _ d, ([], d)) (λ s x, (s.1 ++ [x], s.2))
         (mk_stList 3 5 (Some [7; 0; 9; 0; 0]) 1) cmpFn
       = Ok ([7; 0; 9], NULL))
  ∧ stList_convertToSortedSet (list ptr * ptr) (λ _ d, ([], d)) (λ s x, (s.1 ++ [x], s.2))
      (λ s d, (s.1, d)) (mk_stList 3 5 (Some [7; 0; 9; 0; 0]) 1)
    = Ok (([7; 0; 9], 1), [FreeBuffer; FreeList]).
Proof.
  assert (Hwf : wf (mk_stList 3 5 (Some [7; 0; 9; 0; 0]) 1)).
  { split; [unfold stList_invariant, INT32_MAX; simpl; lia|]. by eexists. }
  split; [exact Hwf|].
  exact (stList_convertToSortedSet_transfer (list ptr * ptr) (λ _ d, ([], d))
           (λ s x, (s.1 ++ [x], s.2)) (λ s d, (s.1, d))
           (mk_stList 3 5 (Some [7; 0; 9; 0; 0]) 1) Hwf).
Defined.

(** ** Growth *)

(** X19.  A list that is created empty and filled by at most 1342177275
    calls of [stList_append] never holds more than [2 * length + 3] slots:
    the block is at most about twice as large as what is in use. *)
Theorem stList_appends_overhead uninit vs :
  Z.of_nat (length vs) <= MAX_GROWN_CAPACITY →
  ∃ l, (stList_construct ≫= λ l0, stList_appends uninit l0 vs) = Ok l
       ∧ stList_length (Some l) <= l_maxLength l
       ∧ l_maxLength l <= 2 * stList_length (Some l) + 3.
Proof.
  intros Hlen. rewrite stList_construct_eq. cbn [mbind result_bind stList_length].
  assert (Hgen : ∀ vs l,
            wf l → growing l →
            l_length l + Z.of_nat (length vs) <= MAX_GROWN_CAPACITY →
            l_maxLength l <= 2 * l_length l + 3 →
            ∃ l', stList_appends uninit l vs = Ok l'
                  ∧ l_length l' <= l_maxLength l'
                  ∧ l_maxLength l' <= 2 * l_length l' + 3).
  { clear. induction vs as [|v vs IH]; intros l Hwf Hgrow Hlen Hcap; simpl in *.
    - exists l. destruct Hwf as [(? & ? & ?) _]. by split_and!.
    - assert (Hle : l_length l <= l_maxLength l) by (destruct Hwf as [(? & ? & ?) _]; done).
      destruct (stList_append_spec uninit l v Hwf) as (l1 & -> & Hwf1 & _ & Hlen1 & Hcap1 & _).
      { apply growing_room; [done|done|lia]. }
      simpl. apply IH; [done| |lia|].
      + unfold growing. rewrite Hcap1. eapply growing_grown; [done|done|lia|done].
      + rewrite Hcap1, Hlen1. unfold grown. case_match; lia. }
  apply Hgen; [apply stList_construct_wf|apply stList_construct_growing|simpl; lia|simpl; lia].
Qed.

Lemma stList_appends_overhead_witness :
  Z.of_nat (length [10; 20; 30; 40; 50; 60]) <= MAX_GROWN_CAPACITY
  ∧ ∃ l, (stList_construct
            ≫= λ l0, stList_appends (λ _, NULL) l0 [10; 20; 30; 40; 50; 60]) = Ok l
         ∧ stList_length (Some l) <= l_maxLength l
         ∧ l_maxLength l <= 2 * stList_length (Some l) + 3.
Proof.
  assert (H : Z.of_nat (length [10; 20; 30; 40; 50; 60]) <= MAX_GROWN_CAPACITY)
    by (unfold MAX_GROWN_CAPACITY; simpl; lia).
  split; [exact H|].
  exact (stList_appends_overhead (λ _, NULL) [10; 20; 30; 40; 50; 60] H).
Defined.
